(** * News headline service: fetch, normalize, cache, fall back

    A shallow embedding of [public/app.js] (the ACESPHERE fetcher with its
    Nirmal Bang anchor-tag fallback and the in-memory cache) and of
    [server.js] (the cheerio based /news endpoint with its TTL cache),
    followed by the properties of the pipeline.

    JavaScript strings are sequences of UTF-16 code units ([list N]);
    JSON values are an inductive type; the objects the cache shares with its
    callers live in an explicit heap ([gmap positive hobj]); code that can
    throw returns an [outcome]. What the language leaves to the host
    (the JSON parser, number printing, the local time zone, the date formats
    accepted beyond ISO 8601, the HTML parser) is a field of the class
    [Host]. *)

From Stdlib Require Import ZArith QArith Qround Qabs Lia List Ascii String Permutation Sorted.
From stdpp Require Import gmap list.

Set Warnings "-register-all,-at-level-200-changed,-notation-overridden".

Local Open Scope Z_scope.

(* ===================================================================== *)
(** ** JavaScript strings *)
(* ===================================================================== *)

Module JS.

(** A string is its sequence of UTF-16 code units. *)
Abbreviation jsstring := (list N).

(** An ASCII literal as a JavaScript string. *)
Definition u (s : string) : jsstring :=
  map N_of_ascii (list_ascii_of_string s).

Definition str_eqb (a b : jsstring) : bool := bool_decide (a = b).

(** WhiteSpace and LineTerminator code units, the set [String.prototype.trim]
    removes: TAB, LF, VT, FF, CR, SP, NBSP, U+1680, U+2000..U+200A, U+2028,
    U+2029, U+202F, U+205F, U+3000 and the byte order mark U+FEFF. *)
Definition isTrimSpace (c : N) : bool :=
  ((9 <=? c) && (c <=? 13) || (c =? 32) || (c =? 160) || (c =? 5760)
   || (8192 <=? c) && (c <=? 8202) || (c =? 8232) || (c =? 8233)
   || (c =? 8239) || (c =? 8287) || (c =? 12288) || (c =? 65279))%N.

(** LineTerminator: LF, CR, U+2028, U+2029 (what [.] never matches). *)
Definition isLineTerminator (c : N) : bool :=
  ((c =? 10) || (c =? 13) || (c =? 8232) || (c =? 8233))%N.

Fixpoint trimStart (s : jsstring) : jsstring :=
  match s with
  | c :: s' => if isTrimSpace c then trimStart s' else s
  | [] => []
  end.

Definition trimEnd (s : jsstring) : jsstring := rev (trimStart (rev s)).

(** [s.trim()] *)
Definition trim (s : jsstring) : jsstring := trimEnd (trimStart s).

(** [s.startsWith(p)] *)
Fixpoint startsWith (p s : jsstring) : bool :=
  match p, s with
  | [], _ => true
  | a :: p', b :: s' => (a =? b)%N && startsWith p' s'
  | _ :: _, [] => false
  end.

(** [String(n)] for an integral number: decimal digits, a minus sign first
    when negative. [fuel] bounds the number of digits. *)
Fixpoint digitsOf (fuel : nat) (n : Z) (acc : jsstring) : jsstring :=
  match fuel with
  | O => acc
  | S f =>
      let acc' := Z.to_N (48 + n mod 10) :: acc in
      if n / 10 =? 0 then acc' else digitsOf f (n / 10) acc'
  end.

Definition intToString (n : Z) : jsstring :=
  if n <? 0 then 45%N :: digitsOf (S (Z.to_nat (Z.log2 (- n)))) (- n) []
  else digitsOf (S (Z.to_nat (Z.log2 n))) n [].

(** [s.padStart(len, fill)] with a one-unit filler. *)
Definition padStart (len : nat) (fill : N) (s : jsstring) : jsstring :=
  repeat fill (len - length s) ++ s.

Definition isDigit (c : N) : bool := ((48 <=? c) && (c <=? 57))%N.

(* ===================================================================== *)
(** ** Values, exceptions, the host *)
(* ===================================================================== *)

(** A Number: a finite double is a rational (every finite double is one; the
    model only tests it for zero, truncates it and hands it to the host's
    printer), plus the three non-finite values. Negative zero is [Finite 0]:
    the code never tells the two zeros apart. *)
Inductive number :=
| NaN
| Infinity (negative : bool)
| Finite (q : Q).

(** What [JSON.parse] can return, and [undefined] for an absent property.
    An object is the list of its own properties. *)
Inductive value :=
| VUndefined
| VNull
| VBool (b : bool)
| VNumber (n : number)
| VString (s : jsstring)
| VArray (elems : list value)
| VObject (props : list (jsstring * value)).

(** The exceptions the code can meet. [ErrorHTML] is the [new Error("ACESPHERE
    returned HTML")] of [fetchAcesphere] (the upstream shape error);
    [FetchFailed] is a rejected [fetch], [resp.text()] or [axios.get]. *)
Inductive exn :=
| FetchFailed
| ErrorHTML
| SyntaxError
| TypeError.

Inductive outcome (A : Type) :=
| Ok (a : A)
| Throw (e : exn).
Arguments Ok {A} a.
Arguments Throw {A} e.

Definition obind {A B} (m : outcome A) (k : A -> outcome B) : outcome B :=
  match m with
  | Ok a => k a
  | Throw e => Throw e
  end.

Notation "'try!' x := m 'in' k" := (obind m (fun x => k))
  (at level 10, x name, m at level 100, k at level 200).

(** A parsed HTML document as cheerio (htmlparser2) holds it. *)
Inductive node :=
| Text (data : jsstring)
| Comment (data : jsstring)
| Element (name : jsstring) (classes : list jsstring) (children : list node).

(** What the language leaves to the implementation, and the parsers the
    repository takes from its runtime and from npm. *)
Class Host := {
  (** [JSON.parse]: [None] is a thrown SyntaxError *)
  JSON_parse : jsstring -> option value;
  (** [Number::toString], the shortest round-trip decimal of a double *)
  Number_toString : number -> jsstring;
  (** LocalTZA(t, isUTC) of ECMA-262, in milliseconds *)
  LocalTZA : Z -> bool -> Z;
  (** [Date.parse] on a string that is not in the Date Time String Format:
      implementation-defined; [None] is NaN *)
  Date_parse_legacy : jsstring -> option Z;
  (** [cheerio.load(html)]: the top-level nodes of the parsed document *)
  cheerio_load : jsstring -> list node
}.

(** ToBoolean *)
Definition truthy (v : value) : bool :=
  match v with
  | VUndefined | VNull => false
  | VBool b => b
  | VNumber NaN => false
  | VNumber (Infinity _) => true
  | VNumber (Finite q) => negb (Qeq_bool q 0)
  | VString s => negb (str_eqb s [])
  | VArray _ | VObject _ => true
  end.

(** [a || b] *)
Definition or_else (a b : value) : value := if truthy a then a else b.

(** The own property [k] of a parsed object, [undefined] when absent. *)
Fixpoint lookup_prop (k : jsstring) (props : list (jsstring * value)) : value :=
  match props with
  | [] => VUndefined
  | (k', v) :: rest => if str_eqb k k' then v else lookup_prop k rest
  end.

Definition has_prop (k : jsstring) (props : list (jsstring * value)) : bool :=
  existsb (fun kv => str_eqb k (fst kv)) props.

(** [v.k] for a property name [k] that no prototype defines (all the names
    this code reads: Title, DateTime, NewsList, ...): a TypeError on
    [null] and [undefined], the own property on an object, [undefined] on
    arrays and primitives. *)
Definition get (v : value) (k : jsstring) : outcome value :=
  match v with
  | VUndefined | VNull => Throw TypeError
  | VObject props => Ok (lookup_prop k props)
  | _ => Ok VUndefined
  end.

(** [v?.k] *)
Definition get_opt (v : value) (k : jsstring) : value :=
  match v with
  | VObject props => lookup_prop k props
  | _ => VUndefined
  end.

Section WithHost.
Context `{Host}.

(** ToString. An array joins its elements with commas, [null] and
    [undefined] elements printing as nothing. A parsed object prints as
    [[object Object]] through Object.prototype.toString, unless it has an own
    property named toString: that one is not callable, Object.prototype.valueOf
    returns no primitive, and ToPrimitive throws a TypeError. *)
Fixpoint ToString (v : value) : outcome jsstring :=
  match v with
  | VUndefined => Ok (u "undefined")
  | VNull => Ok (u "null")
  | VBool true => Ok (u "true")
  | VBool false => Ok (u "false")
  | VNumber n => Ok (Number_toString n)
  | VString s => Ok s
  | VArray elems =>
      (fix join (first : bool) (l : list value) : outcome jsstring :=
         match l with
         | [] => Ok []
         | e :: l' =>
             try! s := match e with
                       | VUndefined | VNull => Ok []
                       | _ => ToString e
                       end in
             try! r := join false l' in
             Ok ((if first then [] else u ",") ++ s ++ r)
         end) true elems
  | VObject props =>
      if has_prop (u "toString") props then Throw TypeError
      else Ok (u "[object Object]")
  end.

(** The loop of [Array.prototype.join] inside [ToString], by itself. *)
Fixpoint joinFrom (first : bool) (l : list value) : outcome jsstring :=
  match l with
  | [] => Ok []
  | e :: l' =>
      try! s := match e with
                | VUndefined | VNull => Ok []
                | _ => ToString e
                end in
      try! r := joinFrom false l' in
      Ok ((if first then [] else u ",") ++ s ++ r)
  end.

(* --------------------------------------------------------------------- *)
(** *** Dates (ECMA-262, Date objects) *)
(* --------------------------------------------------------------------- *)

Definition msPerDay : Z := 86400000.
Definition msPerHour : Z := 3600000.
Definition msPerMinute : Z := 60000.
Definition msPerSecond : Z := 1000.

Definition Day (t : Z) : Z := t / msPerDay.
Definition TimeWithinDay (t : Z) : Z := t mod msPerDay.

Definition DayFromYear (y : Z) : Z :=
  365 * (y - 1970) + (y - 1969) / 4 - (y - 1901) / 100 + (y - 1601) / 400.

Definition isLeapYear (y : Z) : bool :=
  (y mod 4 =? 0) && (negb (y mod 100 =? 0) || (y mod 400 =? 0)).

(** The largest year whose first day is not after [t]: the estimate from
    the mean year length is off by at most one. *)
Definition YearFromDay (d : Z) : Z :=
  let y := 1970 + (d * 400) / 146097 in
  if DayFromYear (y + 1) <=? d then y + 1
  else if DayFromYear y <=? d then y
  else y - 1.

Definition YearFromTime (t : Z) : Z := YearFromDay (Day t).

Definition DayWithinYear (t : Z) : Z := Day t - DayFromYear (YearFromTime t).

Definition InLeapYear (t : Z) : Z :=
  if isLeapYear (YearFromTime t) then 1 else 0.

(** The first day-within-year of month [m] (0-based), for a leap offset. *)
Definition monthStart (leap m : Z) : Z :=
  match m with
  | 0 => 0
  | 1 => 31
  | 2 => 59 + leap
  | 3 => 90 + leap
  | 4 => 120 + leap
  | 5 => 151 + leap
  | 6 => 181 + leap
  | 7 => 212 + leap
  | 8 => 243 + leap
  | 9 => 273 + leap
  | 10 => 304 + leap
  | 11 => 334 + leap
  | _ => 365 + leap
  end.

Definition MonthFromTime (t : Z) : Z :=
  let d := DayWithinYear t in
  let l := InLeapYear t in
  if d <? monthStart l 1 then 0
  else if d <? monthStart l 2 then 1
  else if d <? monthStart l 3 then 2
  else if d <? monthStart l 4 then 3
  else if d <? monthStart l 5 then 4
  else if d <? monthStart l 6 then 5
  else if d <? monthStart l 7 then 6
  else if d <? monthStart l 8 then 7
  else if d <? monthStart l 9 then 8
  else if d <? monthStart l 10 then 9
  else if d <? monthStart l 11 then 10
  else 11.

Definition DateFromTime (t : Z) : Z :=
  DayWithinYear t - monthStart (InLeapYear t) (MonthFromTime t) + 1.

Definition HourFromTime (t : Z) : Z := (t / msPerHour) mod 24.
Definition MinFromTime (t : Z) : Z := (t / msPerMinute) mod 60.
Definition SecFromTime (t : Z) : Z := (t / msPerSecond) mod 60.
Definition msFromTime (t : Z) : Z := t mod msPerSecond.

Definition DaysInMonth (y m : Z) : Z :=
  let l := if isLeapYear y then 1 else 0 in
  monthStart l (m + 1) - monthStart l m.

(** MakeDay for a month in 0..11 *)
Definition MakeDay (y m dt : Z) : Z :=
  DayFromYear y + monthStart (if isLeapYear y then 1 else 0) m + dt - 1.

Definition MakeTime (h mi s ms : Z) : Z :=
  h * msPerHour + mi * msPerMinute + s * msPerSecond + ms.

Definition MakeDate (day time : Z) : Z := day * msPerDay + time.

(** TimeClip: a time value is an integer of magnitude at most 8.64e15. *)
Definition TimeClip (t : Z) : option Z :=
  if Z.abs t <=? 8640000000000000 then Some t else None.

(** ToIntegerOrInfinity on a finite number: truncation toward zero. *)
Definition Qtrunc (q : Q) : Z :=
  if Qle_bool 0 q then Qfloor q else Qceiling q.

Definition TimeClipQ (q : Q) : option Z :=
  if Qle_bool (Qabs q) (inject_Z 8640000000000000) then Some (Qtrunc q)
  else None.

Definition LocalTime (t : Z) : Z := t + LocalTZA t true.
Definition UTC (t : Z) : Z := t - LocalTZA t false.

(** **** The Date Time String Format

    [YYYY[-MM[-DD]]] with a four-digit year or a signed six-digit one, then
    optionally [THH:mm[:ss[.sss]]] and, after a time, [Z] or a signed
    [HH:mm] offset. Date-only forms are UTC, a time without offset is local
    time. A string outside the format (or with a field out of range, or a day
    its month does not have) is left to the implementation. *)

Definition digitVal (c : N) : Z := Z.of_N c - 48.

Fixpoint readDigits (n : nat) (s : jsstring) (acc : Z) : option (Z * jsstring) :=
  match n with
  | O => Some (acc, s)
  | S n' =>
      match s with
      | c :: s' =>
          if isDigit c then readDigits n' s' (10 * acc + digitVal c) else None
      | [] => None
      end
  end.

Definition expect (c : N) (s : jsstring) : option jsstring :=
  match s with
  | c' :: s' => if (c =? c')%N then Some s' else None
  | [] => None
  end.

Definition require (b : bool) : option unit := if b then Some tt else None.

Definition parseYear (s : jsstring) : option (Z * jsstring) :=
  match s with
  | 43%N :: s' => readDigits 6 s' 0
  | 45%N :: s' =>
      '(y, r) ← readDigits 6 s' 0;
      if y =? 0 then None else Some (- y, r)
  | _ => readDigits 4 s 0
  end.

Definition parseDate (s : jsstring) : option (Z * Z * Z * jsstring) :=
  '(y, s1) ← parseYear s;
  match s1 with
  | 45%N :: s2 =>
      '(m, s3) ← readDigits 2 s2 0;
      _ ← require ((1 <=? m) && (m <=? 12));
      match s3 with
      | 45%N :: s4 =>
          '(d, s5) ← readDigits 2 s4 0;
          _ ← require ((1 <=? d) && (d <=? DaysInMonth y (m - 1)));
          Some (y, m, d, s5)
      | _ => Some (y, m, 1, s3)
      end
  | _ => Some (y, 1, 1, s1)
  end.

Definition parseTime (s : jsstring) : option (Z * jsstring) :=
  '(h, s1) ← readDigits 2 s 0;
  s2 ← expect 58%N s1;
  '(mi, s3) ← readDigits 2 s2 0;
  '(sec, ms, s4) ←
    match s3 with
    | 58%N :: s4 =>
        '(sec, s5) ← readDigits 2 s4 0;
        match s5 with
        | 46%N :: s6 => '(ms, s7) ← readDigits 3 s6 0; Some (sec, ms, s7)
        | _ => Some (sec, 0, s5)
        end
    | _ => Some (0, 0, s3)
    end;
  _ ← require ((h <=? 23) && (mi <=? 59) && (sec <=? 59)
              || (h =? 24) && (mi =? 0) && (sec =? 0) && (ms =? 0));
  Some (MakeTime h mi sec ms, s4).

(** [Some (Some o)]: an explicit offset of [o] ms; [Some None]: none given. *)
Definition parseOffset (s : jsstring) : option (option Z) :=
  match s with
  | [] => Some None
  | [90%N] => Some (Some 0)
  | sign :: s1 =>
      _ ← require ((sign =? 43) || (sign =? 45))%N;
      '(h, s2) ← readDigits 2 s1 0;
      s3 ← expect 58%N s2;
      '(m, s4) ← readDigits 2 s3 0;
      _ ← require ((h <=? 23) && (m <=? 59) && bool_decide (s4 = []));
      let o := (h * 60 + m) * msPerMinute in
      Some (Some (if (sign =? 45)%N then - o else o))
  end.

Definition parseISO (s : jsstring) : option Z :=
  '(y, m, d, s1) ← parseDate s;
  let day := MakeDay y (m - 1) d in
  match s1 with
  | [] => Some (MakeDate day 0)
  | 84%N :: s2 =>
      '(tm, s3) ← parseTime s2;
      off ← parseOffset s3;
      let t := MakeDate day tm in
      Some (match off with
            | Some o => t - o
            | None => UTC t
            end)
  | _ => None
  end.

(** [Date.parse(s)]: [None] is NaN. *)
Definition Date_parse (s : jsstring) : option Z :=
  match parseISO s with
  | Some t => TimeClip t
  | None => Date_parse_legacy s
  end.

(** ToPrimitive: arrays and objects go through their [toString]. *)
Definition ToPrimitive (v : value) : outcome value :=
  match v with
  | VArray _ | VObject _ => try! s := ToString v in Ok (VString s)
  | _ => Ok v
  end.

(** ToNumber of a primitive that is no string. *)
Definition ToNumber (v : value) : number :=
  match v with
  | VNull => Finite 0
  | VBool b => Finite (if b then 1 else 0)
  | VNumber n => n
  | _ => NaN
  end.

(** [new Date(v)]: the time value of the new object, [None] when it is an
    Invalid Date (time value NaN). *)
Definition newDate (v : value) : outcome (option Z) :=
  try! p := ToPrimitive v in
  Ok (match p with
      | VString s => Date_parse s
      | _ => match ToNumber p with
             | Finite q => TimeClipQ q
             | _ => None
             end
      end).

End WithHost.

(* --------------------------------------------------------------------- *)
(** *** Regular expressions and replacement *)
(* --------------------------------------------------------------------- *)

(** The patterns of this code are sequences of single-unit atoms: one unit
    of a class, a greedy star or plus of a class, and one lazy capturing
    star of a class. *)
Inductive atom :=
| One (p : N -> bool)
| Star (p : N -> bool)
| Plus (p : N -> bool)
| LazyCapture (p : N -> bool).

(** Backtracking match of [r] at the start of [s]: the capture and the
    number of units consumed. A greedy star tries the longest run first, a
    lazy one the shortest. *)
Fixpoint matchHere (r : list atom) : jsstring -> option (jsstring * nat) :=
  match r with
  | [] => fun _ => Some ([], O)
  | One p :: r' => fun s =>
      match s with
      | c :: s' =>
          if p c then '(cap, n) ← matchHere r' s'; Some (cap, S n) else None
      | [] => None
      end
  | Star p :: r' =>
      fix star (s : jsstring) : option (jsstring * nat) :=
        match s with
        | c :: s' =>
            if p c then
              match star s' with
              | Some (cap, n) => Some (cap, S n)
              | None => matchHere r' s
              end
            else matchHere r' s
        | [] => matchHere r' []
        end
  | Plus p :: r' => fun s =>
      match s with
      | c :: s' =>
          if p c then
            '(cap, n) ←
              (fix star (s : jsstring) : option (jsstring * nat) :=
                 match s with
                 | c :: s' =>
                     if p c then
                       match star s' with
                       | Some (cap, n) => Some (cap, S n)
                       | None => matchHere r' s
                       end
                     else matchHere r' s
                 | [] => matchHere r' []
                 end) s';
            Some (cap, S n)
          else None
      | [] => None
      end
  | LazyCapture p :: r' =>
      fix lazy (s : jsstring) : option (jsstring * nat) :=
        match matchHere r' s with
        | Some (_, n) => Some ([], n)
        | None =>
            match s with
            | c :: s' =>
                if p c then '(cap, n) ← lazy s'; Some (c :: cap, S n)
                else None
            | [] => None
            end
        end
  end.

(** What it is for a pattern to match a whole string with a capture: each
    atom takes its units in turn; the capture is the run of the capturing
    star. *)
Inductive Matches : list atom -> jsstring -> jsstring -> Prop :=
| Matches_nil : Matches [] [] []
| Matches_one p r c s cap :
    p c = true -> Matches r s cap -> Matches (One p :: r) (c :: s) cap
| Matches_star p r run s cap :
    Forall (fun c => p c = true) run -> Matches r s cap ->
    Matches (Star p :: r) (run ++ s) cap
| Matches_plus p r c run s cap :
    p c = true -> Forall (fun c => p c = true) run -> Matches r s cap ->
    Matches (Plus p :: r) (c :: run ++ s) cap
| Matches_lazy p r run s cap :
    Forall (fun c => p c = true) run -> Matches r s cap ->
    Matches (LazyCapture p :: r) (run ++ s) run.

(** The captures of the successive matches of a global pattern, left to
    right, each search resuming where the previous match ended ([skip]
    counts the units of the current match still to pass). No pattern here
    matches the empty string. *)
Fixpoint matchAll (r : list atom) (skip : nat) (s : jsstring) : list jsstring :=
  match s with
  | [] => []
  | _ :: s' =>
      match skip with
      | S k => matchAll r k s'
      | O =>
          match matchHere r s with
          | Some (cap, n) => cap :: matchAll r (n - 1) s'
          | None => matchAll r O s'
          end
      end
  end.

(** [s.replace(/r/g, by)] for a replacement without [$]. *)
Fixpoint replaceAll (r : list atom) (by_ : jsstring) (skip : nat) (s : jsstring)
  : jsstring :=
  match s with
  | [] => []
  | c :: s' =>
      match skip with
      | S k => replaceAll r by_ k s'
      | O =>
          match matchHere r s with
          | Some (_, n) => by_ ++ replaceAll r by_ (n - 1) s'
          | None => c :: replaceAll r by_ O s'
          end
      end
  end.

(** [s.replace(pat, by)] for a non-empty string [pat]: the first
    occurrence only. *)
Fixpoint replaceFirst (pat by_ : jsstring) (s : jsstring) : jsstring :=
  match s with
  | [] => []
  | c :: s' =>
      if startsWith pat s then by_ ++ drop (length pat) s
      else c :: replaceFirst pat by_ s'
  end.

Definition chr (c : N) : N -> bool := fun x => (x =? c)%N.
Definition notChr (c : N) : N -> bool := fun x => negb (x =? c)%N.
(** An ASCII letter under the [i] flag *)
Definition letter (lower : N) : N -> bool :=
  fun x => ((x =? lower) || (x =? lower - 32))%N.
Definition literal (s : jsstring) : list atom := map (fun c => One (chr c)) s.

(* --------------------------------------------------------------------- *)
(** *** Array.prototype.sort *)
(* --------------------------------------------------------------------- *)

(** The sort is stable; the comparator's number is read by its sign, NaN
    as zero. The comparator may throw, which ends the sort. For a
    comparator that is not consistent the standard leaves the order to the
    implementation: the order below is then one of the permitted ones. *)
Section Sort.
Context {A : Type} (cmp : A -> A -> outcome Z).

Fixpoint insertSorted (x : A) (l : list A) : outcome (list A) :=
  match l with
  | [] => Ok [x]
  | y :: l' =>
      try! c := cmp x y in
      if c <=? 0 then Ok (x :: l)
      else try! r := insertSorted x l' in Ok (y :: r)
  end.

Fixpoint Array_sort (l : list A) : outcome (list A) :=
  match l with
  | [] => Ok []
  | x :: l' => try! r := Array_sort l' in insertSorted x r
  end.

End Sort.

End JS.

(* ===================================================================== *)
(** ** State and exceptions *)
(* ===================================================================== *)

(** A computation over a program state [S] that returns or throws. An
    [await] is sequencing: one handler or refresh runs at a time. *)
Module Eff.
Import JS.

Definition M (S A : Type) : Type := S -> outcome A * S.

Section Ops.
Context {S : Type}.

Definition ret {A} (a : A) : M S A := fun st => (Ok a, st).
Definition throw {A} (e : exn) : M S A := fun st => (Throw e, st).
Definition bind {A B} (m : M S A) (k : A -> M S B) : M S B :=
  fun st =>
    match m st with
    | (Ok a, st') => k a st'
    | (Throw e, st') => (Throw e, st')
    end.
(** [try { m } catch (e) { h e }] *)
Definition try_catch {A} (m : M S A) (h : exn -> M S A) : M S A :=
  fun st =>
    match m st with
    | (Ok a, st') => (Ok a, st')
    | (Throw e, st') => h e st'
    end.
Definition lift {A} (o : outcome A) : M S A := fun st => (o, st).

Fixpoint traverse {A B} (f : A -> M S B) (l : list A) : M S (list B) :=
  match l with
  | [] => ret []
  | a :: l' =>
      bind (f a) (fun b => bind (traverse f l') (fun r => ret (b :: r)))
  end.

End Ops.

Notation "'let!' x := m 'in' k" := (bind m (fun x => k))
  (at level 10, x name, m at level 100, k at level 200).

End Eff.

(** The canonical record both programs serve: [{ date, headline }]. *)
Record item := { date : JS.jsstring; headline : JS.jsstring }.

(* ===================================================================== *)
(** ** public/app.js: ACESPHERE fetcher, fallback, in-memory cache *)
(* ===================================================================== *)

Module App.
Import JS Eff.

Definition NEWS_URLS_general : jsstring :=
  u "https://responsiveweb.acesphereonline.com/AjaxPages/AjaxNewsUpdates.aspx".
Definition NEWS_URLS_derivative : jsstring :=
  u "https://responsiveweb.acesphereonline.com/AjaxPages/AjaxNewsUpdates.aspx?SecID=4&SubSecID=47&pageNo=1&PageSize=50".
Definition NIRMALBANG_GENERAL : jsstring :=
  u "https://www.nirmalbang.com/news/stock-market-corporate-news.aspx".

(** *** The heap

    The arrays and records of the cache are objects that the accessor hands
    out by reference, so they live in a heap. *)
Abbreviation loc := positive.

Inductive hobj :=
| HItem (i : item)
| HArray (elems : list loc)
| HSnapshot (derivative general : loc) (lastUpdated : option jsstring).

(** The program state: the heap, and the URLs requested so far. *)
Record state := { heap : gmap loc hobj; requests : list jsstring }.

(** One refresh sees the network and the clock: [net url] is the body text
    of the response, [None] when [fetch] or [resp.text()] rejects. *)
Record world := { net : jsstring -> option jsstring; clock : Z }.

(** [let cached = { derivative: [], general: [], lastUpdated: null }] *)
Definition cached : loc := 1%positive.

Definition initial : state :=
  {| heap := <[cached := HSnapshot 2 3 None]>
               (<[2%positive := HArray []]> (<[3%positive := HArray []]> ∅));
     requests := [] |}.

Abbreviation M := (Eff.M state).

(** [new] of an object literal or array: a location not in use. *)
Definition alloc (o : hobj) : M loc :=
  fun st =>
    let l := fresh (dom (heap st)) in
    (Ok l, {| heap := <[l := o]> (heap st); requests := requests st |}).

Definition update (l : loc) (f : hobj -> hobj) : M unit :=
  fun st =>
    (Ok tt, {| heap := alter f l (heap st); requests := requests st |}).

(** [await fetch(url, ...)] followed by [await resp.text()] *)
Definition fetchText (w : world) (url : jsstring) : M jsstring :=
  fun st =>
    (match net w url with
     | Some text => Ok text
     | None => Throw FetchFailed
     end,
     {| heap := heap st; requests := requests st ++ [url] |}).

(** [a || b] on expressions that may throw *)
Definition orM (a b : outcome value) : outcome value :=
  try! x := a in if truthy x then Ok x else b.

Infix "||?" := orM (at level 50, left associativity).
Infix "|||" := or_else (at level 50, left associativity).

(** [l.map(f)] for a callback that may throw *)
Fixpoint Array_map {A B} (f : A -> outcome B) (l : list A) : outcome (list B) :=
  match l with
  | [] => Ok []
  | a :: l' => try! b := f a in try! r := Array_map f l' in Ok (b :: r)
  end.

(** The record [parseAcesphereList] builds: [{ headline, dateRaw, date }]. *)
Module Raw.
Record t := { headline : jsstring; dateRaw : value; date : jsstring }.
End Raw.

(** The record [fetchNirmalbangHeadlines] builds: [{ headline, date: null }]. *)
Module Nb.
Record t := { headline : jsstring; date : value }.
End Nb.

(** The anchor pattern of [fetchNirmalbangHeadlines], flags g and i: an
    opening [<a], any units but [>], [href=], a quote (double or single),
    any units but quotes, a quote, any units but [>], [>], then the lazy
    capture of any units but line terminators, then [</a>]. *)
Definition quote : N -> bool := fun c => ((c =? 34) || (c =? 39))%N.
Definition anchorRe : list atom :=
  [One (chr 60); One (letter 97); Star (notChr 62);
   One (letter 104); One (letter 114); One (letter 101); One (letter 102);
   One (chr 61); One quote; Star (fun c => negb (quote c)); One quote;
   Star (notChr 62); One (chr 62);
   LazyCapture (fun c => negb (isLineTerminator c));
   One (chr 60); One (chr 47); One (letter 97); One (chr 62)].

(** A stretch of text that is an anchor with an [href] and the inner text
    [m]: [<a], units but [>], [href=], a quote, units but quotes, a quote,
    units but [>], [>], then [m] on one line, then [</a>] (letters in either
    case). *)
Definition anchorWith (matched m : jsstring) : Prop :=
  exists a1 run1 h r e f q1 run2 q2 run3 a2,
    matched = [60%N; a1] ++ run1 ++ [h; r; e; f; 61%N; q1] ++ run2 ++ [q2]
              ++ run3 ++ [62%N] ++ m ++ [60%N; 47%N; a2; 62%N]
    /\ letter 97 a1 = true /\ letter 104 h = true /\ letter 114 r = true
    /\ letter 101 e = true /\ letter 102 f = true /\ letter 97 a2 = true
    /\ quote q1 = true /\ quote q2 = true
    /\ Forall (fun c => c <> 62%N) run1
    /\ Forall (fun c => quote c = false) run2
    /\ Forall (fun c => c <> 62%N) run3
    /\ Forall (fun c => isLineTerminator c = false) m.

(** The tag pattern, flag g: [<], one or more units but [>], [>]. *)
Definition tagRe : list atom := [One (chr 60); Plus (notChr 62); One (chr 62)].

Section Program.
Context `{Host}.

Definition pad (n : Z) : jsstring := padStart 2 48%N (intToString n).

(** utility to format date to DD-MM-YYYY HH:MM (24h) *)
Definition formatDateToDDMMYYYY_HHMM (d : value) : outcome jsstring :=
  if negb (truthy d) then Ok []
  else
    try! dt := newDate d in
    match dt with
    | None => Ok []
    | Some t =>
        let day := pad (DateFromTime (LocalTime t)) in
        let month := pad (MonthFromTime (LocalTime t) + 1) in
        let year := YearFromTime (LocalTime t) in
        let hours := pad (HourFromTime (LocalTime t)) in
        let mins := pad (MinFromTime (LocalTime t)) in
        Ok (day ++ u "-" ++ month ++ u "-" ++ intToString year ++ u " "
            ++ hours ++ u ":" ++ mins)
    end.

(** try fetch JSON from ACESPHERE with AJAX headers *)
Definition fetchAcesphere (w : world) (url : jsstring) : M value :=
  let! text := fetchText w url in
  if startsWith (u "<") (trim text) then throw ErrorHTML
  else
    match JSON_parse text with
    | Some data => ret data
    | None => throw SyntaxError
    end.

(** The loop over the matches of [fetchNirmalbangHeadlines]. *)
Fixpoint collectHeadlines (matches : list jsstring) (headlines : list Nb.t)
  : list Nb.t :=
  match matches with
  | [] => headlines
  | m1 :: rest =>
      let text := trim (replaceAll tagRe [] 0 m1) in
      let headlines' :=
        if truthy (VString text) && (5 <? length text)%nat
        then headlines ++ [{| Nb.headline := text; Nb.date := VNull |}]
        else headlines in
      if (10 <=? length headlines')%nat then headlines'
      else collectHeadlines rest headlines'
  end.

(** fallback: fetch Nirmalbang and parse headlines (simple HTML parse) *)
Definition fetchNirmalbangHeadlines (w : world) : M (list Nb.t) :=
  try_catch
    (let! html := fetchText w NIRMALBANG_GENERAL in
     let matches := matchAll anchorRe 0 html in
     ret (collectHeadlines matches []))
    (fun e => ret []).

(** [item.DateTime || item.Date || ... || null] *)
Definition extractDate (item : value) : outcome value :=
  get item (u "DateTime") ||? get item (u "Date") ||? get item (u "TimeStamp")
  ||? get item (u "NewsDate") ||? get item (u "CreatedOn")
  ||? get item (u "NewsDateTime") ||? Ok VNull.

(** [item.Title || item.Headline || ... || ""] *)
Definition extractHeadline (item : value) : outcome value :=
  get item (u "Title") ||? get item (u "Headline")
  ||? get item (u "NewsHeading") ||? get item (u "Heading")
  ||? get item (u "NewsTitle") ||? get item (u "NewsDesc")
  ||? Ok (VString []).

(** The callback of [list.map] in [parseAcesphereList]. *)
Definition normalizeItem (item : value) : outcome Raw.t :=
  try! dateVal := extractDate item in
  try! headline := extractHeadline item in
  try! h := ToString headline in
  try! d := formatDateToDDMMYYYY_HHMM dateVal in
  Ok {| Raw.headline := trim h; Raw.dateRaw := dateVal; Raw.date := d |}.

(** [obj?.NewsList || obj?.ListNewsBean || ... || obj] *)
Definition locateList (obj : value) : value :=
  get_opt obj (u "NewsList") ||| get_opt obj (u "ListNewsBean")
  ||| get_opt obj (u "newsList") ||| get_opt obj (u "Data")
  ||| get_opt obj (u "News") ||| obj.

(** Normalize different ACESPHERE JSON shapes into { headline, date } *)
Definition parseAcesphereList (obj : value) : outcome (list Raw.t) :=
  let list := locateList obj in
  match list with
  | VArray l =>
      try! out := Array_map normalizeItem l in
      Ok (List.filter
            (fun x => truthy (VString (Raw.headline x))
                      && (0 <? length (Raw.headline x))%nat) out)
  | _ => Ok []
  end.

(** [(a, b) => new Date(b.dateRaw) - new Date(a.dateRaw)]: NaN (an invalid
    date on either side) reads as zero. *)
Definition byDateDesc (a b : Raw.t) : outcome Z :=
  try! tb := newDate (Raw.dateRaw b) in
  try! ta := newDate (Raw.dateRaw a) in
  Ok (match tb, ta with
      | Some tb, Some ta => tb - ta
      | _, _ => 0
      end).

Definition sortByDateDesc (arr : list Raw.t) : outcome (list Raw.t) :=
  try! withDate :=
    Array_sort byDateDesc (List.filter (fun r => truthy (Raw.dateRaw r)) arr) in
  let withoutDate := List.filter (fun r => negb (truthy (Raw.dateRaw r))) arr in
  Ok (withDate ++ withoutDate).

(** [date.toISOString()] of a valid date *)
Definition toISOString (t : Z) : jsstring :=
  let y := YearFromTime t in
  (if (0 <=? y) && (y <=? 9999) then padStart 4 48%N (intToString y)
   else (if y <? 0 then u "-" else u "+")
        ++ padStart 6 48%N (intToString (Z.abs y)))
  ++ u "-" ++ pad (MonthFromTime t + 1) ++ u "-" ++ pad (DateFromTime t)
  ++ u "T" ++ pad (HourFromTime t) ++ u ":" ++ pad (MinFromTime t)
  ++ u ":" ++ pad (SecFromTime t)
  ++ u "." ++ padStart 3 48%N (intToString (msFromTime t)) ++ u "Z".

(** [i.date || ""] *)
Definition strOr (a b : jsstring) : jsstring :=
  if truthy (VString a) then a else b.

(** [(i) => ({ date: i.date || "", headline: i.headline })] *)
Definition finalItem (i : Raw.t) : item :=
  {| date := strOr (Raw.date i) []; headline := Raw.headline i |}.

(** [items.map(...)] with that callback: a new array of new records. *)
Definition finalArray (items : list Raw.t) : M loc :=
  let! ls := traverse (fun i => alloc (HItem (finalItem i))) items in
  alloc (HArray ls).

(** The callback of [nb.map] in the fallback branch. *)
Definition fallbackRecord (n : Nb.t) : outcome Raw.t :=
  try! d := if truthy (Nb.date n)
            then formatDateToDDMMYYYY_HHMM (Nb.date n)
            else Ok [] in
  Ok {| Raw.headline := Nb.headline n;
        Raw.dateRaw := Nb.date n ||| VNull;
        Raw.date := d |}.

Definition set_derivative (l : loc) (o : hobj) : hobj :=
  match o with
  | HSnapshot _ g lu => HSnapshot l g lu
  | _ => o
  end.
Definition set_general (l : loc) (o : hobj) : hobj :=
  match o with
  | HSnapshot d _ lu => HSnapshot d l lu
  | _ => o
  end.
Definition set_lastUpdated (t : option jsstring) (o : hobj) : hobj :=
  match o with
  | HSnapshot d g _ => HSnapshot d g t
  | _ => o
  end.

(** Attempt to fetch derivative and general news from ACESPHERE. If general
    fails, fallback to Nirmalbang. *)
Definition refreshNewsNow (w : world) : M unit :=
  try_catch
    ((* derivative *)
     let! derivativeItems :=
       try_catch
         (let! derJson := fetchAcesphere w NEWS_URLS_derivative in
          lift (parseAcesphereList derJson))
         (fun e => ret []) in
     (* general (try acesphere first) *)
     let! generalItems :=
       try_catch
         (let! genJson := fetchAcesphere w NEWS_URLS_general in
          lift (parseAcesphereList genJson))
         (fun e =>
            let! nb := fetchNirmalbangHeadlines w in
            lift (Array_map fallbackRecord nb)) in
     let! derivativeSorted := lift (sortByDateDesc derivativeItems) in
     let derivativeItems := take 4 derivativeSorted in
     let! generalSorted := lift (sortByDateDesc generalItems) in
     let generalItems := take 6 generalSorted in
     let! d := finalArray derivativeItems in
     let! _ := update cached (set_derivative d) in
     let! g := finalArray generalItems in
     let! _ := update cached (set_general g) in
     update cached (set_lastUpdated (Some (toISOString (clock w)))))
    (fun err => ret tt).

(** [setInterval(f, ...)]: [f] at each firing of the timer; [ticks] are the
    worlds the successive firings see. A cycle is over before the next
    firing (the period is 30 minutes). *)
Fixpoint setInterval (f : world -> M unit) (ticks : list world) : M unit :=
  match ticks with
  | [] => ret tt
  | w :: rest => let! _ := f w in setInterval f rest
  end.

(** start the periodic updater: run immediately, then every 30 minutes *)
Definition startNewsUpdater (w0 : world) (ticks : list world) : M unit :=
  let! _ := refreshNewsNow w0 in
  setInterval refreshNewsNow ticks.

(** accessor *)
Definition getCachedNews : M loc :=
  fun st =>
    match heap st !! cached with
    | Some (HSnapshot d g lu) => alloc (HSnapshot d g lu) st
    | _ => (Throw TypeError, st)
    end.

End Program.

(** *** Reading the heap by value *)

Definition readItem (h : gmap loc hobj) (l : loc) : option item :=
  match h !! l with
  | Some (HItem i) => Some i
  | _ => None
  end.

Definition readArray (h : gmap loc hobj) (l : loc) : option (list item) :=
  match h !! l with
  | Some (HArray ls) => mapM (readItem h) ls
  | _ => None
  end.

(** A snapshot by value: what a caller sees through the object at [l] (and
    what [JSON.stringify] would print). *)
Record snapshot := {
  derivative : list item;
  general : list item;
  lastUpdated : option jsstring
}.

Definition readSnapshot (h : gmap loc hobj) (l : loc) : option snapshot :=
  match h !! l with
  | Some (HSnapshot d g lu) =>
      dv ← readArray h d;
      gv ← readArray h g;
      Some {| derivative := dv; general := gv; lastUpdated := lu |}
  | _ => None
  end.

(** The cache object exists (it does from the first line of the module
    on). *)
Definition cache_allocated (st : state) : Prop :=
  exists d g lu, heap st !! cached = Some (HSnapshot d g lu).

(** What the loop of [fetchNirmalbangHeadlines] makes of a capture [m]:
    the capture without tags, trimmed. *)
Definition fromMatch (m : jsstring) : jsstring :=
  trim (replaceAll tagRe [] 0 m).

(** A headline that loop accepts from the captures [all]. *)
Definition accepted (all : list jsstring) (n : Nb.t) : Prop :=
  Nb.date n = VNull
  /\ (5 < length (Nb.headline n))%nat
  /\ exists m, m ∈ all /\ Nb.headline n = fromMatch m.

(** The state after the requests [urls]. *)
Definition logged (st : state) (urls : list jsstring) : state :=
  {| heap := heap st; requests := requests st ++ urls |}.

(** A tag stands at the start of [s]: [<], one or more units but [>], then
    [>]; and a string without a tag anywhere. *)
Definition tagAt (s : jsstring) : Prop :=
  exists run rest,
    s = 60%N :: run ++ 62%N :: rest /\ run <> []
    /\ Forall (fun c => c <> 62%N) run.

Definition tagFree (s : jsstring) : Prop :=
  forall pre suf, s = pre ++ suf -> ~ tagAt suf.

(** *** The strategies, without the state

    What each fetch strategy yields in a world; the lemmas below show that
    the stateful code computes these and logs its requests. *)
Section Strategies.
Context `{Host}.

(** What [fetchAcesphere(url)] returns or throws. *)
Definition acesphere (w : world) (url : jsstring) : outcome value :=
  match net w url with
  | None => Throw FetchFailed
  | Some text =>
      if startsWith (u "<") (trim text) then Throw ErrorHTML
      else match JSON_parse text with
           | Some data => Ok data
           | None => Throw SyntaxError
           end
  end.

(** The structured strategy: fetch, then normalize. *)
Definition structured (w : world) (url : jsstring) : outcome (list Raw.t) :=
  try! json := acesphere w url in parseAcesphereList json.

(** What [fetchNirmalbangHeadlines()] returns. *)
Definition nirmalbang (w : world) : list Nb.t :=
  match net w NIRMALBANG_GENERAL with
  | Some html => collectHeadlines (matchAll anchorRe 0 html) []
  | None => []
  end.

(** The markup fallback strategy: the headlines as records. *)
Definition fallback (w : world) : outcome (list Raw.t) :=
  Array_map fallbackRecord (nirmalbang w).

(** Ordering and cap of a category, then the cached shape. *)
Definition finalize (cap : nat) (items : list Raw.t) : outcome (list item) :=
  try! sorted := sortByDateDesc items in
  Ok (map finalItem (take cap sorted)).

(** The records a category holds before ordering and cap: the derivative
    category has one strategy, the general one falls back. *)
Definition derivativeItems (w : world) : list Raw.t :=
  match structured w NEWS_URLS_derivative with
  | Ok items => items
  | Throw _ => []
  end.

Definition generalItems (w : world) : outcome (list Raw.t) :=
  match structured w NEWS_URLS_general with
  | Ok items => Ok items
  | Throw _ => fallback w
  end.

(** The requests of one refresh, in order. *)
Definition cycleRequests (w : world) : list jsstring :=
  [NEWS_URLS_derivative; NEWS_URLS_general]
  ++ match structured w NEWS_URLS_general with
     | Ok _ => []
     | Throw _ => [NIRMALBANG_GENERAL]
     end.

(** A record carries a valid raw date: [dateRaw] is truthy and
    [new Date(dateRaw)] is a valid date. *)
Definition hasValidDate (r : Raw.t) : bool :=
  truthy (Raw.dateRaw r)
  && match newDate (Raw.dateRaw r) with
     | Ok (Some _) => true
     | _ => false
     end.

(** The time value of a record's raw date (0 when it has none). *)
Definition timeOf (r : Raw.t) : Z :=
  match newDate (Raw.dateRaw r) with
  | Ok (Some t) => t
  | _ => 0
  end.

End Strategies.

(** The property names [parseAcesphereList] tries for the list, in order. *)
Definition listAliases : list jsstring :=
  [u "NewsList"; u "ListNewsBean"; u "newsList"; u "Data"; u "News"].

(** A value that is neither an array nor an object. *)
Definition isPrimitive (v : value) : bool :=
  match v with
  | VArray _ | VObject _ => false
  | _ => true
  end.

(** A flat record: an object whose property values are all primitives. *)
Definition isFlatRecord (v : value) : bool :=
  match v with
  | VObject props => forallb (fun kv => isPrimitive (snd kv)) props
  | _ => false
  end.

(** *** Reading a formatted date back *)

(** The inputs the formatter is specified for: absent, null, a string, a
    number. *)
Definition isDateInput (d : value) : Prop :=
  match d with
  | VUndefined | VNull | VString _ | VNumber _ => True
  | _ => False
  end.

Definition twoDigits (n : Z) (s : jsstring) : bool :=
  match s with
  | [a; b] => isDigit a && isDigit b && (10 * digitVal a + digitVal b =? n)
  | _ => false
  end.

Definition fourDigits (n : Z) (s : jsstring) : bool :=
  match s with
  | [a; b; c; d] =>
      isDigit a && isDigit b && isDigit c && isDigit d
      && (1000 * digitVal a + 100 * digitVal b + 10 * digitVal c + digitVal d
          =? n)
  | _ => false
  end.

(** The fields (day, month, year, hours, minutes) of a string of the shape
    DD-MM-YYYY HH:MM: sixteen units, digits and the separators at their
    places. *)
Definition decode (s : jsstring) : option (Z * Z * Z * Z * Z) :=
  match s with
  | [d1; d2; s1; m1; m2; s2; y1; y2; y3; y4; s3; h1; h2; s4; n1; n2] =>
      if forallb isDigit [d1; d2; m1; m2; y1; y2; y3; y4; h1; h2; n1; n2]
         && (s1 =? 45)%N && (s2 =? 45)%N && (s3 =? 32)%N && (s4 =? 58)%N
      then Some (10 * digitVal d1 + digitVal d2,
                 10 * digitVal m1 + digitVal m2,
                 1000 * digitVal y1 + 100 * digitVal y2 + 10 * digitVal y3
                 + digitVal y4,
                 10 * digitVal h1 + digitVal h2,
                 10 * digitVal n1 + digitVal n2)
      else None
  | _ => None
  end.

(** A snapshot object is no array and no record: changing one in place
    leaves every array as it reads. *)
Definition keepsSnapshot (f : hobj -> hobj) : Prop :=
  forall d g lu, exists d' g' lu', f (HSnapshot d g lu) = HSnapshot d' g' lu'.

(** *** What a caller can do with the object the accessor returned *)
Module Caller.
Section Calls.
Context `{Host}.

(** [arr.push(x)] for a new record [x] *)
Definition push (arr : loc) (x : item) : M unit :=
  let! l := alloc (HItem x) in
  update arr (fun o => match o with
                       | HArray ls => HArray (ls ++ [l])
                       | _ => o
                       end).

(** [rec.headline = s] *)
Definition setHeadline (rec : loc) (s : jsstring) : M unit :=
  update rec (fun o => match o with
                       | HItem i => HItem {| date := date i; headline := s |}
                       | _ => o
                       end).

Inductive field := Derivative | General | LastUpdated.

(** [r.general = l], [r.derivative = l], [r.lastUpdated = ...]: a new value for
    a property of the returned object *)
Definition assign (r : loc) (f : field) (l : loc) (t : option jsstring) : M unit :=
  update r (match f with
            | Derivative => set_derivative l
            | General => set_general l
            | LastUpdated => set_lastUpdated t
            end).

(** [getCachedNews().general.push(x)] *)
Definition pushGeneral (x : item) : M unit :=
  let! r := getCachedNews in
  fun st =>
    match heap st !! r with
    | Some (HSnapshot d g lu) => push g x st
    | _ => (Throw TypeError, st)
    end.

End Calls.
End Caller.

End App.

(* ===================================================================== *)
(** ** server.js: the cheerio based /news endpoint *)
(* ===================================================================== *)

(** The three copies of the server in the repository share the constants and
    the functions below word for word (they differ in logging and in the
    static routes). *)
Module Server.
Import JS Eff.

Definition NB_GENERAL : jsstring :=
  u "https://www.nirmalbang.com/ajaxpages/AjaxNewsUpdates.aspx?SecID=7&SubSecID=15&pageNo=1&PageSize=20".
Definition NB_DERIVATIVE : jsstring :=
  u "https://www.nirmalbang.com/ajaxpages/AjaxNewsUpdates.aspx?SecID=4&SubSecID=47&pageNo=1&PageSize=20".

Definition CACHE_TTL : Z := 60 * 1000.

(** [{ general, derivative }] *)
Record news := { general : list item; derivative : list item }.

(** [cachedNews], [lastFetched], and the URLs requested so far. The handler
    replaces [cachedNews] by a new object and [res.json] serializes at once,
    so the state holds values. *)
Record state := {
  cachedNews : news;
  lastFetched : Z;
  requests : list jsstring
}.

Definition initial : state :=
  {| cachedNews := {| general := []; derivative := [] |};
     lastFetched := 0;
     requests := [] |}.

(** One request sees the network and the clock: [axios url] is
    [response.data], [None] when [axios.get] rejects. *)
Record world := { axios : jsstring -> option jsstring; clock : Z }.

Abbreviation M := (Eff.M state).

(** [d.replace(/&nbsp;/g, " ").replace("Hrs IST", "").trim()] *)
Definition formatDate (d : jsstring) : jsstring :=
  trim (replaceFirst (u "Hrs IST") []
          (replaceAll (literal (u "&nbsp;")) (u " ") 0 d)).

(** *** The cheerio queries *)

Definition hasClass (cls : jsstring) (n : node) : bool :=
  match n with
  | Element _ classes _ => existsb (str_eqb cls) classes
  | _ => false
  end.

(** The elements of class [cls] in the subtree of [n], [n] included, in
    document order. *)
Fixpoint selectIn (cls : jsstring) (n : node) : list node :=
  match n with
  | Element _ _ children =>
      (if hasClass cls n then [n] else [])
      ++ List.flat_map (selectIn cls) children
  | _ => []
  end.

(** [$("." + cls)] on a loaded document *)
Definition select (cls : jsstring) (doc : list node) : list node :=
  List.flat_map (selectIn cls) doc.

(** [$(el).find("." + cls)]: the descendants of [el] of that class *)
Definition find (cls : jsstring) (el : node) : list node :=
  match el with
  | Element _ _ children => List.flat_map (selectIn cls) children
  | _ => []
  end.

(** The text of a node: its text descendants, concatenated; a comment has
    none. *)
Fixpoint textContent (n : node) : jsstring :=
  match n with
  | Text data => data
  | Comment _ => []
  | Element _ _ children => List.flat_map textContent children
  end.

(** [.text()] of a selection *)
Definition text (sel : list node) : jsstring := List.flat_map textContent sel.

(** The trimmed texts [.each] reads from a container. *)
Definition headlineText (el : node) : jsstring :=
  trim (text (find (u "GrNewsHead") el)).
Definition dateText (el : node) : jsstring :=
  trim (text (find (u "GrNewsDate") el)).

(** Both texts of a container are truthy, and the record pushed then. *)
Definition bothPresent (el : node) : bool :=
  truthy (VString (headlineText el)) && truthy (VString (dateText el)).
Definition recordOf (el : node) : item :=
  {| date := formatDate (dateText el); headline := headlineText el |}.

Section Program.
Context `{Host}.

(** The callback of [.each]: [news.push(...)] when both texts are truthy. *)
Definition eachContainer (news : list item) (el : node) : list item :=
  let headline := headlineText el in
  let date := dateText el in
  if truthy (VString headline) && truthy (VString date)
  then news ++ [{| date := formatDate date; headline := headline |}]
  else news.

Definition parseHtmlNews (html : jsstring) : list item :=
  fold_left eachContainer (select (u "GrNewsMainCont") (cheerio_load html)) [].

Definition fetchNews (w : world) (url : jsstring) : M (list item) :=
  fun st =>
    (match axios w url with
     | Some data => Ok (parseHtmlNews data)
     | None => Throw FetchFailed
     end,
     {| cachedNews := cachedNews st; lastFetched := lastFetched st;
        requests := requests st ++ [url] |}).

(** [await Promise.all([a, b])]: both calls are made before either is
    awaited; the result throws when either does. *)
Definition Promise_all2 {A B} (a : M A) (b : M B) : M (A * B) :=
  fun st =>
    let '(ra, st1) := a st in
    let '(rb, st2) := b st1 in
    (match ra, rb with
     | Ok x, Ok y => Ok (x, y)
     | Throw e, _ => Throw e
     | _, Throw e => Throw e
     end, st2).

Definition set_cache (n : news) (now : Z) : M unit :=
  fun st =>
    (Ok tt, {| cachedNews := n; lastFetched := now; requests := requests st |}).

Definition res_json : M news := fun st => (Ok (cachedNews st), st).

(** [app.get("/news", ...)]: the body of the response *)
Definition getNews (w : world) : M news :=
  fun st =>
    let now := clock w in
    if now - lastFetched st <? CACHE_TTL then res_json st
    else
      try_catch
        (let! r := Promise_all2 (fetchNews w NB_GENERAL)
                                (fetchNews w NB_DERIVATIVE) in
         let! _ := set_cache {| general := fst r; derivative := snd r |} now in
         res_json)
        (fun err => res_json) st.

End Program.

End Server.


(* ===================================================================== *)
(** ** Sample hosts and worlds *)
(* ===================================================================== *)

Module Examples.
Import JS.

(** A literal written with single quotes, read with double quotes. *)
Definition dq (s : string) : jsstring :=
  map (fun c => if (c =? 39)%N then 34%N else c) (u s).

Definition scenarioText : jsstring :=
  dq "{'NewsList':[{'Title':'A','DateTime':'2024-01-02T15:04:00Z'},{'Title':'B','DateTime':'2024-01-03T09:00:00Z'}]}".

Definition scenarioPayload : value :=
  VObject
    [(u "NewsList",
      VArray
        [VObject [(u "Title", VString (u "A"));
                  (u "DateTime", VString (u "2024-01-02T15:04:00Z"))];
         VObject [(u "Title", VString (u "B"));
                  (u "DateTime", VString (u "2024-01-03T09:00:00Z"))]])].

(** Exact on integers, which is all the samples print. *)
Definition printNumber (n : number) : jsstring :=
  match n with
  | NaN => u "NaN"
  | Infinity false => u "Infinity"
  | Infinity true => u "-Infinity"
  | Finite q => intToString (Qtrunc q)
  end.

(** Two news containers, the second without a date. *)
Definition sampleDoc : list node :=
  [Element (u "div") [u "GrNewsMainCont"]
     [Element (u "span") [u "GrNewsHead"] [Text (u " Nifty ends higher ")];
      Element (u "span") [u "GrNewsDate"] [Text (u "02 Jan 2024 15:04&nbsp;Hrs IST")]];
   Element (u "div") [u "GrNewsMainCont"]
     [Element (u "span") [u "GrNewsHead"] [Text (u "Rupee opens flat")];
      Element (u "span") [u "GrNewsDate"] [Text (u "  ")]]].

(** The list the scenario expects. *)
Definition scenarioExpected : list item :=
  [{| date := u "03-01-2024 09:00"; headline := u "B" |};
   {| date := u "02-01-2024 15:04"; headline := u "A" |}].

(** A host whose local time is [tz] milliseconds ahead of UTC, that knows
    the one JSON text and the one document of the samples. *)
Definition hostAt (tz : Z) : Host :=
  {| JSON_parse := fun s =>
       if str_eqb s scenarioText then Some scenarioPayload else None;
     Number_toString := printNumber;
     LocalTZA := fun _ _ => tz;
     Date_parse_legacy := fun _ => None;
     cheerio_load := fun _ => sampleDoc |}.

Definition utc : Host := hostAt 0.
(** India Standard Time, UTC+05:30 *)
Definition ist : Host := hostAt 19800000.

(** No upstream answers. *)
Definition offline : App.world :=
  {| App.net := fun _ => None; App.clock := 1704294000000 |}.

(** ACESPHERE is down, the Nirmal Bang page answers. *)
Definition fallbackOnly : App.world :=
  {| App.net := fun url =>
       if str_eqb url App.NIRMALBANG_GENERAL
       then Some (u "<html><a href='/n/1'>Sensex gains <b>300</b> points</a><a href='/'>Home</a><A HREF='/n/2'>Rupee opens flat</A></html>")
       else None;
     App.clock := 1704207840123 |}.

(** ACESPHERE serves an HTML error page, the Nirmal Bang page answers. *)
Definition htmlErrorPage : App.world :=
  {| App.net := fun url =>
       if str_eqb url App.NIRMALBANG_GENERAL
       then Some (u "<html><a href='/n/1'>Sensex gains <b>300</b> points</a></html>")
       else Some (u "  <!DOCTYPE html><html>Service unavailable</html>");
     App.clock := 1704207840123 |}.


(** A server request past the TTL whose derivative fetch fails. *)
Definition derivativeDown : Server.world :=
  {| Server.axios := fun url =>
       if str_eqb url Server.NB_GENERAL then Some (u "<div>...</div>") else None;
     Server.clock := 1704207840123 |}.

Definition serverUp : Server.world :=
  {| Server.axios := fun url => Some (u "<div>...</div>");
     Server.clock := 1704207800000 |}.

End Examples.

(* ===================================================================== *)
(** ** Properties of the runtime model *)
(* ===================================================================== *)

Module JSFacts.
Import JS.

(** *** trim *)

Lemma trimStart_head s :
  match trimStart s with
  | [] => True
  | c :: _ => isTrimSpace c = false
  end.
Proof.
  induction s as [|c s IH]; simpl; [done|].
  destruct (isTrimSpace c) eqn:E; [exact IH|]. exact E.
Qed.

Lemma trimStart_fixed c s : isTrimSpace c = false -> trimStart (c :: s) = c :: s.
Proof. intros E. simpl. by rewrite E. Qed.

Lemma trimStart_idem s : trimStart (trimStart s) = trimStart s.
Proof.
  pose proof (trimStart_head s) as Hh.
  destruct (trimStart s) as [|c r]; [done|]. by apply trimStart_fixed.
Qed.

Lemma trimStart_app_keep s c r :
  isTrimSpace c = false -> trimStart (s ++ c :: r) = trimStart (s ++ [c]) ++ r.
Proof.
  intros E. induction s as [|a s IH]; simpl.
  - by rewrite E.
  - destruct (isTrimSpace a); [exact IH|].
    f_equal. change (c :: r) with ([c] ++ r). by rewrite (assoc_L (++)).
Qed.

Lemma trimEnd_idem s : trimEnd (trimEnd s) = trimEnd s.
Proof. unfold trimEnd. by rewrite rev_involutive, trimStart_idem. Qed.

(** A string that starts with a unit that is no space keeps it under
    [trimEnd]. *)
Lemma trimEnd_cons c s :
  isTrimSpace c = false -> exists r, trimEnd (c :: s) = c :: r.
Proof.
  intros E. unfold trimEnd. simpl rev.
  rewrite (trimStart_app_keep (rev s) c [] E), app_nil_r.
  pose proof (trimStart_head (rev s ++ [c])) as Hh.
  destruct (trimStart (rev s ++ [c])) as [|a t] eqn:Et.
  - exfalso. clear Hh. revert Et. generalize (rev s). intros l.
    induction l as [|b l IH]; simpl; [by rewrite E|].
    destruct (isTrimSpace b); [exact IH|done].
  - assert (Hlast : exists t', a :: t = t' ++ [c]).
    { clear Hh. revert Et. generalize (rev s). intros l.
      induction l as [|b l IH]; simpl.
      - rewrite E. intros [= <- <-]. by exists [].
      - destruct (isTrimSpace b); [exact IH|]. intros [= <- <-]. by exists (b :: l). }
    destruct Hlast as [t' ->]. rewrite rev_app_distr. simpl. eauto.
Qed.

Lemma trimStart_trimEnd_trimStart s :
  trimStart (trimEnd (trimStart s)) = trimEnd (trimStart s).
Proof.
  pose proof (trimStart_head s) as Hh.
  destruct (trimStart s) as [|c r]; [done|].
  destruct (trimEnd_cons c r Hh) as [r' ->]. by apply trimStart_fixed.
Qed.

Lemma trim_idem s : trim (trim s) = trim s.
Proof.
  unfold trim. by rewrite trimStart_trimEnd_trimStart, trimEnd_idem.
Qed.


(** *** Dates *)

Ltac dlia := Z.to_euclidean_division_equations; lia.

Lemma DayFromYear_bounds y :
  146097 * (y - 1970) - 506 <= 400 * DayFromYear y <= 146097 * (y - 1970) + 589.
Proof. unfold DayFromYear. dlia. Qed.

Lemma YearFromDay_spec d :
  DayFromYear (YearFromDay d) <= d < DayFromYear (YearFromDay d + 1).
Proof.
  unfold YearFromDay.
  set (y := 1970 + d * 400 / 146097).
  assert (Hy : 146097 * (y - 1970) <= 400 * d < 146097 * (y - 1970) + 146097)
    by (subst y; dlia).
  clearbody y.
  pose proof (DayFromYear_bounds (y + 1 + 1)).
  pose proof (DayFromYear_bounds (y - 1)).
  destruct (Z.leb_spec (DayFromYear (y + 1)) d);
    [|destruct (Z.leb_spec (DayFromYear y) d)];
    rewrite ?Z.sub_add; lia.
Qed.

Lemma DaysInYear y :
  DayFromYear (y + 1) - DayFromYear y = 365 + (if isLeapYear y then 1 else 0).
Proof.
  unfold DayFromYear, isLeapYear.
  destruct (Z.eqb_spec (y mod 4) 0), (Z.eqb_spec (y mod 100) 0), (Z.eqb_spec (y mod 400) 0);
    simpl; dlia.
Qed.

Lemma DayWithinYear_bounds t :
  0 <= DayWithinYear t < 365 + InLeapYear t.
Proof.
  unfold DayWithinYear, InLeapYear, YearFromTime.
  pose proof (YearFromDay_spec (Day t)).
  pose proof (DaysInYear (YearFromDay (Day t))).
  destruct (isLeapYear _); lia.
Qed.

Lemma InLeapYear_cases t : InLeapYear t = 0 \/ InLeapYear t = 1.
Proof. unfold InLeapYear. destruct (isLeapYear _); auto. Qed.

Lemma MonthFromTime_bounds t : 0 <= MonthFromTime t <= 11.
Proof.
  unfold MonthFromTime.
  repeat match goal with |- context [if ?b then _ else _] => destruct b end; lia.
Qed.

Lemma DateFromTime_bounds t : 1 <= DateFromTime t <= 31.
Proof.
  unfold DateFromTime, MonthFromTime.
  pose proof (DayWithinYear_bounds t) as Hd.
  generalize dependent (DayWithinYear t). intros d Hd.
  destruct (InLeapYear_cases t) as [E | E]; rewrite E in *; cbn [monthStart] in *;
  repeat match goal with
         | |- context [if ?a <? ?b then _ else _] => destruct (Z.ltb_spec a b)
         end; cbn [monthStart]; lia.
Qed.

Lemma HourFromTime_bounds t : 0 <= HourFromTime t <= 23.
Proof. unfold HourFromTime. dlia. Qed.

Lemma MinFromTime_bounds t : 0 <= MinFromTime t <= 59.
Proof. unfold MinFromTime. dlia. Qed.


Lemma forallb_range (P : Z -> bool) lo n :
  forallb P (map (fun i => lo + Z.of_nat i) (seq 0 n)) = true ->
  forall z, lo <= z < lo + Z.of_nat n -> P z = true.
Proof.
  intros HP z Hz. rewrite forallb_forall in HP. apply HP.
  apply in_map_iff. exists (Z.to_nat (z - lo)). split; [lia|].
  apply in_seq. lia.
Qed.


End JSFacts.

(** *** The date formatter's digits *)

Module FormatFacts.
Import JS App JSFacts.

Lemma pad_twoDigits n : 0 <= n <= 99 -> twoDigits n (pad n) = true.
Proof.
  intros Hn. apply (forallb_range (fun n => twoDigits n (pad n)) 0 100); [|lia].
  vm_compute. reflexivity.
Qed.

Lemma year_fourDigits y : 1000 <= y <= 9999 -> fourDigits y (intToString y) = true.
Proof.
  intros Hy. apply (forallb_range (fun n => fourDigits n (intToString n)) 1000 (Z.to_nat 9000)); [|lia].
  vm_compute. reflexivity.
Qed.

End FormatFacts.

Module FormatTheorems.
Import JS App JSFacts FormatFacts.

Section Formatter.
Context `{Host}.

Lemma newDate_primitive d : isDateInput d -> exists o, newDate d = Ok o.
Proof. destruct d; simpl; try done; intros _; unfold newDate; simpl; eauto. Qed.

Lemma twoDigits_inv n s :
  twoDigits n s = true ->
  exists a b, s = [a; b] /\ isDigit a = true /\ isDigit b = true
              /\ 10 * digitVal a + digitVal b = n.
Proof.
  destruct s as [|a [|b [|]]]; simpl; try done.
  intros Hs. apply andb_prop in Hs as [Hs Hn]. apply andb_prop in Hs as [Ha Hb].
  apply Z.eqb_eq in Hn. exists a, b. auto.
Qed.

Lemma fourDigits_inv n s :
  fourDigits n s = true ->
  exists a b c d, s = [a; b; c; d] /\ isDigit a = true /\ isDigit b = true
    /\ isDigit c = true /\ isDigit d = true
    /\ 1000 * digitVal a + 100 * digitVal b + 10 * digitVal c + digitVal d = n.
Proof.
  destruct s as [|a [|b [|c [|d [|]]]]]; simpl; try done.
  intros Hs. apply andb_prop in Hs as [Hs Hn]. apply andb_prop in Hs as [Hs Hd].
  apply andb_prop in Hs as [Hs Hc]. apply andb_prop in Hs as [Ha Hb].
  apply Z.eqb_eq in Hn. exists a, b, c, d. auto 10.
Qed.

(** Two-digit fields around a four-digit year read back as themselves. *)
Lemma decode_fields D M Y h mi :
  0 <= D <= 99 -> 0 <= M <= 99 -> 1000 <= Y <= 9999 ->
  0 <= h <= 99 -> 0 <= mi <= 99 ->
  decode (pad D ++ u "-" ++ pad M ++ u "-" ++ intToString Y ++ u " "
          ++ pad h ++ u ":" ++ pad mi) = Some (D, M, Y, h, mi).
Proof.
  intros HD HM HY Hh Hmi.
  destruct (twoDigits_inv _ _ (pad_twoDigits D HD)) as (d1 & d2 & E1 & ? & ? & <-).
  destruct (twoDigits_inv _ _ (pad_twoDigits M HM)) as (m1 & m2 & E2 & ? & ? & <-).
  destruct (twoDigits_inv _ _ (pad_twoDigits h Hh)) as (h1 & h2 & E3 & ? & ? & <-).
  destruct (twoDigits_inv _ _ (pad_twoDigits mi Hmi)) as (n1 & n2 & E4 & ? & ? & <-).
  destruct (fourDigits_inv _ _ (year_fourDigits Y HY))
    as (y1 & y2 & y3 & y4 & E5 & ? & ? & ? & ? & <-).
  rewrite E1, E2, E3, E4, E5.
  cbn [app u list_ascii_of_string map N_of_ascii decode forallb].
  repeat match goal with E : isDigit _ = true |- _ => rewrite E; clear E end.
  reflexivity.
Qed.

Lemma formatDate_falsy d :
  truthy d = false -> formatDateToDDMMYYYY_HHMM d = Ok [].
Proof. intros E. unfold formatDateToDDMMYYYY_HHMM. by rewrite E. Qed.

Lemma formatDate_valid d t :
  truthy d = true -> newDate d = Ok (Some t) ->
  formatDateToDDMMYYYY_HHMM d =
    Ok (pad (DateFromTime (LocalTime t)) ++ u "-"
        ++ pad (MonthFromTime (LocalTime t) + 1) ++ u "-"
        ++ intToString (YearFromTime (LocalTime t)) ++ u " "
        ++ pad (HourFromTime (LocalTime t)) ++ u ":"
        ++ pad (MinFromTime (LocalTime t))).
Proof.
  intros E Ht. unfold formatDateToDDMMYYYY_HHMM. by rewrite E, Ht.
Qed.

Lemma formatDate_invalid d :
  newDate d = Ok None -> formatDateToDDMMYYYY_HHMM d = Ok [].
Proof.
  intros Ht. unfold formatDateToDDMMYYYY_HHMM. rewrite Ht.
  by destruct (truthy d).
Qed.

(** C6, as amended. On a string, a number, null or undefined the formatter
    never throws. It returns the empty string when the input is falsy (null,
    undefined, the empty string, 0, NaN) or is no valid date. On any other
    input whose local year has four digits it returns sixteen units of the
    shape DD-MM-YYYY HH:MM that read back as the local day (1..31), month
    (1..12), year, hour (0..23) and minute (0..59) of the date. *)
Theorem formatDate_total_and_shape (d : value) :
  isDateInput d ->
  exists s, formatDateToDDMMYYYY_HHMM d = Ok s
    /\ (truthy d = false -> s = [])
    /\ (newDate d = Ok None -> s = [])
    /\ (forall t, truthy d = true -> newDate d = Ok (Some t) ->
         1000 <= YearFromTime (LocalTime t) <= 9999 ->
         decode s = Some (DateFromTime (LocalTime t),
                          MonthFromTime (LocalTime t) + 1,
                          YearFromTime (LocalTime t),
                          HourFromTime (LocalTime t),
                          MinFromTime (LocalTime t))
         /\ 1 <= DateFromTime (LocalTime t) <= 31
         /\ 1 <= MonthFromTime (LocalTime t) + 1 <= 12
         /\ 0 <= HourFromTime (LocalTime t) <= 23
         /\ 0 <= MinFromTime (LocalTime t) <= 59).
Proof.
  intros Hd. destruct (newDate_primitive d Hd) as [o Ho].
  destruct (truthy d) eqn:Et.
  - destruct o as [t|].
    + eexists. split; [by apply formatDate_valid|].
      split; [done|]. split; [by rewrite Ho|].
      intros t' _ Ht' Hy. rewrite Ho in Ht'. injection Ht' as <-.
      pose proof (DateFromTime_bounds (LocalTime t)).
      pose proof (MonthFromTime_bounds (LocalTime t)).
      pose proof (HourFromTime_bounds (LocalTime t)).
      pose proof (MinFromTime_bounds (LocalTime t)).
      split; [apply decode_fields; lia|lia].
    + exists []. split; [by apply formatDate_invalid|].
      split; [done|]. split; [done|]. intros t _ Ht. by rewrite Ho in Ht.
  - exists []. split; [by apply formatDate_falsy|].
    split; [done|]. split; [done|]. intros t Ht. done.
Qed.

End Formatter.

(** The formatter at a string in the Date Time String Format, local time
    being UTC. *)
Lemma formatDate_total_and_shape_witness :
  isDateInput (VString (u "2024-01-02T15:04:00Z"))
  /\ exists s, @formatDateToDDMMYYYY_HHMM Examples.utc
                 (VString (u "2024-01-02T15:04:00Z")) = Ok s.
Proof.
  split; [exact I|].
  destruct (@formatDate_total_and_shape Examples.utc
              (VString (u "2024-01-02T15:04:00Z")) I) as (s & Hs & _).
  exists s. exact Hs.
Defined.

(** C6 as stated fails twice. The number 0 is a timestamp that parses as a
    valid date (1970-01-01T00:00Z), yet the formatter returns the empty
    string for it; and a valid date before the year 1000 prints its year
    without padding, here as 01-01-99 00:00, which is not DD-MM-YYYY HH:MM. *)
Lemma formatDate_zero_and_short_year :
  (@newDate Examples.utc (VNumber (Finite 0)) = Ok (Some 0)
   /\ @formatDateToDDMMYYYY_HHMM Examples.utc (VNumber (Finite 0)) = Ok [])
  /\ (@newDate Examples.utc (VString (u "0099-01-01T00:00:00Z"))
        = Ok (Some (-59042995200000))
      /\ @formatDateToDDMMYYYY_HHMM Examples.utc
           (VString (u "0099-01-01T00:00:00Z")) = Ok (u "01-01-99 00:00")
      /\ decode (u "01-01-99 00:00") = None).
Proof. vm_compute. repeat split. Qed.

End FormatTheorems.

(** *** Array.prototype.sort *)

Module SortFacts.
Import JS.

Section Sorting.
Context {A : Type} (cmp : A -> A -> outcome Z).

Lemma insertSorted_perm x l r :
  insertSorted cmp x l = Ok r -> Permutation r (x :: l).
Proof.
  revert r. induction l as [|y l IH]; simpl; intros r.
  - intros [= <-]. done.
  - destruct (cmp x y) as [c|e]; simpl; [|done].
    destruct (c <=? 0); [intros [= <-]; done|].
    destruct (insertSorted cmp x l) as [r'|e]; simpl; [|done].
    intros [= <-]. rewrite (IH r' eq_refl). apply perm_swap.
Qed.

Lemma Array_sort_perm l r : Array_sort cmp l = Ok r -> Permutation r l.
Proof.
  revert r. induction l as [|x l IH]; simpl; intros r.
  - intros [= <-]. done.
  - destruct (Array_sort cmp l) as [r'|e]; simpl; [|done].
    intros Hi%insertSorted_perm. rewrite Hi. by rewrite (IH r' eq_refl).
Qed.

(** A comparator that never throws on the elements of the list makes the
    sort return. *)
Lemma insertSorted_total x l :
  Forall (fun y => exists c, cmp x y = Ok c) l ->
  exists r, insertSorted cmp x l = Ok r.
Proof.
  induction 1 as [|y l [c Hc] _ IH]; simpl; [eauto|].
  rewrite Hc. simpl. destruct (c <=? 0); [eauto|].
  destruct IH as [r ->]. simpl. eauto.
Qed.

Lemma Array_sort_total l :
  (forall x y, x ∈ l -> y ∈ l -> exists c, cmp x y = Ok c) ->
  exists r, Array_sort cmp l = Ok r.
Proof.
  induction l as [|x l IH]; simpl; intros Hc; [eauto|].
  destruct IH as [r Hr].
  { intros a b Ha Hb. apply Hc; by right. }
  rewrite Hr. simpl. apply insertSorted_total.
  apply Forall_forall. intros y Hy. apply Hc; [by left|].
  right. apply list_elem_of_In. apply list_elem_of_In in Hy.
  by rewrite <- (Array_sort_perm _ _ Hr).
Qed.

(** With a comparator that is the difference of a key, the result is in
    descending key order. *)
Context (key : A -> Z).



End Sorting.
End SortFacts.

(** *** The normalizer *)

Module NormalizeFacts.
Import JS App JSFacts.

Lemma str_eqb_true a b : str_eqb a b = true <-> a = b.
Proof. unfold str_eqb. apply bool_decide_eq_true. Qed.

Lemma str_eqb_false a b : str_eqb a b = false <-> a <> b.
Proof. unfold str_eqb. apply bool_decide_eq_false. Qed.

Lemma truthy_string s : truthy (VString s) = true <-> s <> [].
Proof.
  simpl. destruct (str_eqb s []) eqn:E.
  - apply str_eqb_true in E. split; [done|]. intros Hs. by destruct Hs.
  - apply str_eqb_false in E. split; [by intros _|done].
Qed.

Lemma Array_map_Forall2 {A B} (f : A -> outcome B) l out :
  Array_map f l = Ok out <-> Forall2 (fun a b => f a = Ok b) l out.
Proof.
  revert out. induction l as [|a l IH]; simpl; intros out.
  - split; [intros [= <-]; constructor|by inversion 1].
  - split.
    + destruct (f a) as [b|e] eqn:Ea; simpl; [|done].
      destruct (Array_map f l) as [r|e] eqn:Er; simpl; [|done].
      intros [= <-]. constructor; [done|]. by apply IH.
    + inversion 1 as [|? b ? r Hb Hr]; subst. rewrite Hb. simpl.
      apply IH in Hr. rewrite Hr. done.
Qed.

Lemma Forall2_elem_r {A B} (P : A -> B -> Prop) l k y :
  Forall2 P l k -> y ∈ k -> exists x, x ∈ l /\ P x y.
Proof.
  intros HF [i Hi]%list_elem_of_lookup.
  destruct (Forall2_lookup_r _ _ _ _ _ HF Hi) as (x & Hx & HP).
  exists x. split; [|done]. apply list_elem_of_lookup. eauto.
Qed.

Lemma Forall2_elem_l {A B} (P : A -> B -> Prop) l k x :
  Forall2 P l k -> x ∈ l -> exists y, y ∈ k /\ P x y.
Proof.
  intros HF [i Hi]%list_elem_of_lookup.
  destruct (Forall2_lookup_l _ _ _ _ _ HF Hi) as (y & Hy & HP).
  exists y. split; [|done]. apply list_elem_of_lookup. eauto.
Qed.

Section Normalizer.
Context `{Host}.

(** What throws in [new Date(v)] is ToPrimitive; a falsy value is a
    primitive. *)
Lemma newDate_falsy v : truthy v = false -> exists o, newDate v = Ok o.
Proof.
  destruct v; simpl; try done; intros _; unfold newDate; simpl; eauto.
Qed.

Lemma formatDate_ok_newDate v d :
  formatDateToDDMMYYYY_HHMM v = Ok d -> exists o, newDate v = Ok o.
Proof.
  unfold formatDateToDDMMYYYY_HHMM.
  destruct (truthy v) eqn:Et; simpl.
  - destruct (newDate v); simpl; [eauto|done].
  - intros _. by apply newDate_falsy.
Qed.

Lemma normalizeItem_inv item r :
  normalizeItem item = Ok r ->
  exists hv s,
    extractHeadline item = Ok hv /\ ToString hv = Ok s
    /\ Raw.headline r = trim s
    /\ extractDate item = Ok (Raw.dateRaw r)
    /\ formatDateToDDMMYYYY_HHMM (Raw.dateRaw r) = Ok (Raw.date r).
Proof.
  unfold normalizeItem.
  destruct (extractDate item) as [dv|]; simpl; [|done].
  destruct (extractHeadline item) as [hv|]; simpl; [|done].
  destruct (ToString hv) as [s|] eqn:Es; simpl; [|done].
  destruct (formatDateToDDMMYYYY_HHMM dv) as [d|] eqn:Ed; simpl; [|done].
  intros [= <-]. simpl. exists hv, s. repeat split; done.
Qed.

Lemma parseAcesphereList_inv obj out :
  parseAcesphereList obj = Ok out ->
  (exists l mapped,
     locateList obj = VArray l /\ Array_map normalizeItem l = Ok mapped
     /\ out = List.filter (fun x => truthy (VString (Raw.headline x))
                                    && (0 <? length (Raw.headline x))%nat)
                          mapped)
  \/ ((forall l, locateList obj <> VArray l) /\ out = []).
Proof.
  unfold parseAcesphereList.
  destruct (locateList obj) as [| | | | |l|] eqn:El;
    try (intros [= <-]; right; split; [intros ?; discriminate|done]).
  destruct (Array_map normalizeItem l) as [mapped|] eqn:Em; simpl; [|done].
  intros [= <-]. left. exists l, mapped. done.
Qed.

Lemma kept_iff (x : Raw.t) :
  truthy (VString (Raw.headline x)) && (0 <? length (Raw.headline x))%nat = true
  <-> Raw.headline x <> [].
Proof.
  rewrite andb_true_iff, truthy_string. split; [by intros [? _]|].
  intros Hx. split; [done|]. apply Nat.ltb_lt.
  destruct (Raw.headline x); [done|simpl; lia].
Qed.

(** Every record of the output was normalized from an item of the list,
    has a trimmed non-empty headline, and a raw date that [new Date]
    accepts without throwing. *)
Lemma parseAcesphereList_records obj out :
  parseAcesphereList obj = Ok out ->
  Forall (fun r => Raw.headline r <> []
                   /\ trim (Raw.headline r) = Raw.headline r
                   /\ exists o, newDate (Raw.dateRaw r) = Ok o) out.
Proof.
  intros [(l & mapped & _ & Hm & ->)|[_ ->]]%parseAcesphereList_inv; [|constructor].
  apply Forall_forall. intros r Hr.
  apply list_elem_of_In, filter_In in Hr as [Hr Hk].
  apply kept_iff in Hk. split; [done|].
  apply Array_map_Forall2 in Hm.
  apply list_elem_of_In in Hr.
  destruct (Forall2_elem_r _ _ _ _ Hm Hr) as (item & _ & Hitem).
  apply normalizeItem_inv in Hitem as (hv & s & _ & _ & Hh & _ & Hd).
  split; [rewrite Hh; apply trim_idem|].
  by apply formatDate_ok_newDate in Hd.
Qed.

(** C5. Every record the normalizer returns has a headline that is not empty
    after trimming; and the record of an input item is in the output exactly
    when the item's extracted headline, as a string, is not empty after
    trimming, so empty and whitespace-only headlines are left out. *)
Theorem parseAcesphereList_nonempty_headlines (obj : value) (out : list Raw.t) :
  parseAcesphereList obj = Ok out ->
  Forall (fun r => trim (Raw.headline r) <> []) out
  /\ forall l item r hv s,
       locateList obj = VArray l -> item ∈ l ->
       normalizeItem item = Ok r ->
       extractHeadline item = Ok hv -> ToString hv = Ok s ->
       (r ∈ out <-> trim s <> []).
Proof.
  intros Hp. split.
  - apply (Forall_impl _ _ _ (parseAcesphereList_records _ _ Hp)).
    intros r (Hne & Htrim & _). by rewrite Htrim.
  - intros l item r hv s Hl Hitem Hr Hhv Hs.
    apply parseAcesphereList_inv in Hp as [(l' & mapped & Hl' & Hm & ->)|[Hno _]];
      [|by destruct (Hno l)].
    rewrite Hl in Hl'. injection Hl' as <-.
    apply Array_map_Forall2 in Hm.
    destruct (normalizeItem_inv _ _ Hr) as (hv' & s' & Hhv' & Hs' & Hh & _).
    rewrite Hhv in Hhv'. injection Hhv' as <-.
    rewrite Hs in Hs'. injection Hs' as <-.
    rewrite <- Hh. rewrite <- kept_iff.
    rewrite list_elem_of_In, filter_In, <- list_elem_of_In.
    split; [by intros [_ ?]|]. intros Hk. split; [|done].
    destruct (Forall2_elem_l _ _ _ _ Hm Hitem) as (r' & Hr' & Heq).
    rewrite Hr in Heq. by injection Heq as <-.
Qed.

End Normalizer.

(** The scenario payload: both records are kept. *)
Lemma parseAcesphereList_nonempty_headlines_witness :
  Forall (fun r => trim (Raw.headline r) <> [])
    [{| Raw.headline := u "A";
        Raw.dateRaw := VString (u "2024-01-02T15:04:00Z");
        Raw.date := u "02-01-2024 15:04" |};
     {| Raw.headline := u "B";
        Raw.dateRaw := VString (u "2024-01-03T09:00:00Z");
        Raw.date := u "03-01-2024 09:00" |}].
Proof.
  apply (@parseAcesphereList_nonempty_headlines Examples.utc
           Examples.scenarioPayload).
  vm_compute. reflexivity.
Defined.

End NormalizeFacts.

(** *** The anchor-tag fallback *)

Module FallbackFacts.
Import JS Eff App JSFacts NormalizeFacts.

Lemma collectHeadlines_cons m ms hs :
  collectHeadlines (m :: ms) hs
  = let hs' := if truthy (VString (fromMatch m)) && (5 <? length (fromMatch m))%nat
               then hs ++ [{| Nb.headline := fromMatch m; Nb.date := VNull |}]
               else hs in
    if (10 <=? length hs')%nat then hs' else collectHeadlines ms hs'.
Proof. reflexivity. Qed.

Lemma collectHeadlines_inv all ms hs :
  (forall m, m ∈ ms -> m ∈ all) ->
  (length hs < 10)%nat -> Forall (accepted all) hs ->
  (length (collectHeadlines ms hs) <= 10)%nat
  /\ Forall (accepted all) (collectHeadlines ms hs).
Proof.
  revert hs. induction ms as [|m ms IH]; intros hs Hsub Hlen Hall.
  - simpl. split; [lia|done].
  - rewrite collectHeadlines_cons. cbv zeta.
    set (hs' := if truthy (VString (fromMatch m)) && (5 <? length (fromMatch m))%nat
                then hs ++ [{| Nb.headline := fromMatch m; Nb.date := VNull |}]
                else hs).
    assert (Hlen' : (length hs' <= 10)%nat).
    { subst hs'. destruct (_ && _); [rewrite length_app; simpl; lia|lia]. }
    assert (Hall' : Forall (accepted all) hs').
    { subst hs'. destruct (_ && _) eqn:E; [|done].
      apply Forall_app. split; [done|]. repeat constructor; cbn [Nb.headline Nb.date].
      - apply andb_prop in E as [_ E]. by apply Nat.ltb_lt in E.
      - exists m. split; [|done]. apply Hsub. by left. }
    destruct (Nat.leb_spec 10 (length hs')); [split; [lia|done]|].
    apply IH; [|lia|done]. intros m' Hm'. apply Hsub. by right.
Qed.

Lemma accepted_headline all n :
  accepted all n ->
  Nb.headline n <> [] /\ trim (Nb.headline n) = Nb.headline n.
Proof.
  intros (_ & Hlen & m & _ & Hm). split.
  - intros E. rewrite E in Hlen. simpl in Hlen. lia.
  - rewrite Hm. apply trim_idem.
Qed.

Section Fallback.
Context `{Host}.

Lemma fetchNirmalbangHeadlines_run w st :
  fetchNirmalbangHeadlines w st
  = (Ok (nirmalbang w),
     {| heap := heap st; requests := requests st ++ [NIRMALBANG_GENERAL] |}).
Proof.
  unfold fetchNirmalbangHeadlines, nirmalbang, try_catch, bind, fetchText, ret.
  by destruct (net w NIRMALBANG_GENERAL).
Qed.

Lemma nirmalbang_accepted w :
  (length (nirmalbang w) <= 10)%nat
  /\ Forall (accepted (match net w NIRMALBANG_GENERAL with
                       | Some html => matchAll anchorRe 0 html
                       | None => []
                       end)) (nirmalbang w).
Proof.
  unfold nirmalbang. destruct (net w NIRMALBANG_GENERAL) as [html|].
  - apply collectHeadlines_inv; [done|simpl; lia|constructor].
  - split; [simpl; lia|constructor].
Qed.

(** C7. Whatever the page, the anchor-tag extractor returns (it never
    throws) at most 10 headlines; each is the tag-stripped, trimmed capture
    of an anchor of the page, is not empty, and has more than 5 units; so no
    entry shorter than 5 units is among them. *)
Theorem fetchNirmalbangHeadlines_bounded (w : world) (st : state) :
  exists hs,
    fst (fetchNirmalbangHeadlines w st) = Ok hs
    /\ (length hs <= 10)%nat
    /\ Forall (fun n =>
         Nb.headline n <> []
         /\ trim (Nb.headline n) = Nb.headline n
         /\ (5 < length (Nb.headline n))%nat
         /\ exists html m,
              net w NIRMALBANG_GENERAL = Some html
              /\ m ∈ matchAll anchorRe 0 html
              /\ Nb.headline n = trim (replaceAll tagRe [] 0 m)) hs
    /\ forall html m,
         net w NIRMALBANG_GENERAL = Some html ->
         m ∈ matchAll anchorRe 0 html ->
         (length (trim (replaceAll tagRe [] 0 m)) < 5)%nat ->
         Forall (fun n => Nb.headline n <> trim (replaceAll tagRe [] 0 m)) hs.
Proof.
  exists (nirmalbang w). rewrite fetchNirmalbangHeadlines_run. simpl.
  destruct (nirmalbang_accepted w) as [Hlen Hall].
  split; [done|]. split; [done|]. split.
  - apply (Forall_impl _ _ _ Hall). intros n Hn.
    destruct (accepted_headline _ _ Hn) as [Hne Htrim].
    destruct Hn as (_ & Hl & m & Hm & Hh).
    split; [done|]. split; [done|]. split; [done|].
    destruct (net w NIRMALBANG_GENERAL) as [html|]; [|by apply elem_of_nil in Hm].
    exists html, m. done.
  - intros html m _ _ Hshort.
    apply (Forall_impl _ _ _ Hall). intros n (_ & Hl & _) E.
    rewrite E in Hl. lia.
Qed.

(** The fallback records: every headline with no raw date and an empty
    date string. *)
Lemma fallback_records w :
  fallback w
  = Ok (map (fun n => {| Raw.headline := Nb.headline n;
                         Raw.dateRaw := VNull; Raw.date := [] |})
            (nirmalbang w)).
Proof.
  unfold fallback. destruct (nirmalbang_accepted w) as [_ Hall].
  induction Hall as [|n l (Hd & _) _ IH]; simpl; [done|].
  rewrite IH. unfold fallbackRecord. rewrite Hd. simpl. done.
Qed.

End Fallback.
End FallbackFacts.

(** *** The heap *)

Module HeapFacts.
Import JS Eff App.

Lemma fresh_None (h : gmap loc hobj) : h !! fresh (dom h) = None.
Proof. apply not_elem_of_dom, is_fresh. Qed.

Lemma insert_fresh_subseteq (h : gmap loc hobj) o :
  h ⊆ <[fresh (dom h) := o]> h.
Proof. apply insert_subseteq, fresh_None. Qed.

Lemma readItem_weaken (h h' : gmap loc hobj) l v :
  h ⊆ h' -> readItem h l = Some v -> readItem h' l = Some v.
Proof.
  unfold readItem. intros Hsub.
  destruct (h !! l) as [o|] eqn:E; [|done].
  by rewrite (lookup_weaken _ _ _ _ E Hsub).
Qed.

Lemma readItems_weaken (h h' : gmap loc hobj) ls vs :
  h ⊆ h' -> mapM (readItem h) ls = Some vs -> mapM (readItem h') ls = Some vs.
Proof.
  intros Hsub. rewrite !mapM_Some. intros HF.
  eapply Forall2_impl; [exact HF|]. intros l v. by apply readItem_weaken.
Qed.

Lemma readArray_weaken (h h' : gmap loc hobj) l vs :
  h ⊆ h' -> readArray h l = Some vs -> readArray h' l = Some vs.
Proof.
  unfold readArray. intros Hsub.
  destruct (h !! l) as [o|] eqn:E; [|done].
  rewrite (lookup_weaken _ _ _ _ E Hsub).
  destruct o; try done. by apply readItems_weaken.
Qed.

Lemma mapM_cons {A B} (f : A -> option B) x l :
  mapM f (x :: l) = y ← f x; k ← mapM f l; Some (y :: k).
Proof. reflexivity. Qed.

Lemma readItem_alter (h : gmap loc hobj) c f d g lu l :
  h !! c = Some (HSnapshot d g lu) -> keepsSnapshot f ->
  readItem (alter f c h) l = readItem h l.
Proof.
  intros Hc Hf. unfold readItem. rewrite lookup_alter.
  destruct (decide (c = l)) as [<-|]; [|done].
  rewrite Hc. simpl. by destruct (Hf d g lu) as (? & ? & ? & ->).
Qed.

Lemma readArray_alter (h : gmap loc hobj) c f d g lu l :
  h !! c = Some (HSnapshot d g lu) -> keepsSnapshot f ->
  readArray (alter f c h) l = readArray h l.
Proof.
  intros Hc Hf. unfold readArray. rewrite lookup_alter.
  destruct (decide (c = l)) as [<-|].
  - rewrite Hc. simpl. by destruct (Hf d g lu) as (? & ? & ? & ->).
  - destruct (h !! l) as [[]|]; try done.
    induction elems as [|e es IH]; [done|].
    rewrite !mapM_cons, IH. by rewrite (readItem_alter _ _ _ _ _ _ _ Hc Hf).
Qed.

Lemma keepsSnapshot_set_derivative l : keepsSnapshot (set_derivative l).
Proof. intros d g lu. simpl. eauto. Qed.
Lemma keepsSnapshot_set_general l : keepsSnapshot (set_general l).
Proof. intros d g lu. simpl. eauto. Qed.
Lemma keepsSnapshot_set_lastUpdated t : keepsSnapshot (set_lastUpdated t).
Proof. intros d g lu. simpl. eauto. Qed.

(** Allocating the records of a list: new locations that read back as the
    records; what was allocated stays. *)
Lemma alloc_items_run {A} (f : A -> item) (xs : list A) (st : state) :
  exists ls st',
    traverse (fun x => alloc (HItem (f x))) xs st = (Ok ls, st')
    /\ heap st ⊆ heap st'
    /\ requests st' = requests st
    /\ mapM (readItem (heap st')) ls = Some (map f xs).
Proof.
  revert st. induction xs as [|x xs IH]; intros st.
  - exists [], st. done.
  - set (l := fresh (dom (heap st))).
    set (st1 := {| heap := <[l := HItem (f x)]> (heap st); requests := requests st |}).
    destruct (IH st1) as (ls & st' & Hrun & Hsub & Hreq & Hread).
    exists (l :: ls), st'. split; [|split; [|split]].
    + cbn [traverse]. unfold bind at 1. unfold alloc at 1. fold l. fold st1.
      unfold bind at 1. rewrite Hrun. done.
    + etrans; [|exact Hsub]. apply insert_fresh_subseteq.
    + by rewrite Hreq.
    + cbn [map]. rewrite mapM_cons, Hread.
      assert (Hl : readItem (heap st') l = Some (f x)).
      { eapply readItem_weaken; [exact Hsub|]. unfold readItem. simpl.
        by rewrite lookup_insert_eq. }
      by rewrite Hl.
Qed.

Section Final.
Context `{Host}.

Lemma finalArray_run (items : list Raw.t) (st : state) :
  exists l st',
    finalArray items st = (Ok l, st')
    /\ heap st ⊆ heap st'
    /\ heap st !! l = None
    /\ requests st' = requests st
    /\ readArray (heap st') l = Some (map finalItem items).
Proof.
  destruct (alloc_items_run finalItem items st)
    as (ls & st1 & Hrun & Hsub & Hreq & Hread).
  exists (fresh (dom (heap st1))),
    {| heap := <[fresh (dom (heap st1)) := HArray ls]> (heap st1);
       requests := requests st1 |}.
  split; [|split; [|split; [|split]]].
  - unfold finalArray, bind. rewrite Hrun. done.
  - simpl. etrans; [exact Hsub|]. apply insert_fresh_subseteq.
  - pose proof (fresh_None (heap st1)) as Hn.
    destruct (heap st !! fresh (dom (heap st1))) eqn:E; [|done].
    by rewrite (lookup_weaken _ _ _ _ E Hsub) in Hn.
  - done.
  - unfold readArray. simpl. rewrite lookup_insert_eq.
    eapply readItems_weaken; [|exact Hread]. apply insert_fresh_subseteq.
Qed.

End Final.
End HeapFacts.

(** *** Ordering, cap and the refresh cycle *)

Module RefreshFacts.
Import JS Eff App JSFacts SortFacts NormalizeFacts FallbackFacts HeapFacts.

Lemma filter_all {A} (p : A -> bool) l :
  Forall (fun x => p x = true) l -> List.filter p l = l.
Proof. induction 1 as [|x l Hx _ IH]; simpl; [done|]. by rewrite Hx, IH. Qed.

Lemma filter_none {A} (p : A -> bool) l :
  Forall (fun x => p x = false) l -> List.filter p l = [].
Proof. induction 1 as [|x l Hx _ IH]; simpl; [done|]. by rewrite Hx. Qed.


Section Ordering.
Context `{Host}.



(** Records without a raw date keep their order. *)
Lemma sortByDateDesc_undated arr :
  Forall (fun r => truthy (Raw.dateRaw r) = false) arr ->
  sortByDateDesc arr = Ok arr.
Proof.
  intros Hu. unfold sortByDateDesc.
  rewrite (filter_none _ _ Hu). simpl.
  rewrite filter_all; [done|].
  eapply Forall_impl; [exact Hu|]. simpl. by intros r ->.
Qed.

(** The ordering returns when [new Date] accepts every raw date. *)
Lemma sortByDateDesc_total arr :
  Forall (fun r => exists o, newDate (Raw.dateRaw r) = Ok o) arr ->
  exists sorted, sortByDateDesc arr = Ok sorted.
Proof.
  intros Hc. unfold sortByDateDesc.
  destruct (Array_sort_total byDateDesc
              (List.filter (fun r => truthy (Raw.dateRaw r)) arr)) as [wd ->].
  - rewrite Forall_forall in Hc.
    intros x y Hx%list_elem_of_In Hy%list_elem_of_In.
    apply filter_In in Hx as [Hx%list_elem_of_In _].
    apply filter_In in Hy as [Hy%list_elem_of_In _].
    destruct (Hc x Hx) as [ox Hox]. destruct (Hc y Hy) as [oy Hoy].
    unfold byDateDesc. rewrite Hoy, Hox. simpl. eauto.
  - simpl. eauto.
Qed.

Lemma hasValidDate_inv r :
  hasValidDate r = true ->
  truthy (Raw.dateRaw r) = true
  /\ newDate (Raw.dateRaw r) = Ok (Some (timeOf r)).
Proof.
  unfold hasValidDate, timeOf. intros [Ht Hd]%andb_prop. split; [done|].
  by destruct (newDate (Raw.dateRaw r)) as [[t|]|].
Qed.


Lemma finalize_inv cap items out :
  finalize cap items = Ok out ->
  exists sorted,
    sortByDateDesc items = Ok sorted /\ out = map finalItem (take cap sorted).
Proof.
  unfold finalize. destruct (sortByDateDesc items); simpl; [|done].
  intros [= <-]. eauto.
Qed.

Lemma finalize_length cap items out :
  finalize cap items = Ok out -> (length out <= cap)%nat.
Proof.
  intros (sorted & _ & ->)%finalize_inv.
  rewrite length_map, length_take. lia.
Qed.

End Ordering.

Section Cycle.
Context `{Host}.

Lemma fetchAcesphere_run w url st :
  fetchAcesphere w url st = (acesphere w url, logged st [url]).
Proof.
  unfold fetchAcesphere, acesphere, bind, fetchText, logged.
  destruct (net w url) as [text|]; [|done].
  destruct (startsWith (u "<") (trim text)); [done|].
  by destruct (JSON_parse text).
Qed.

(** The structured strategy inside its [try]: what it yields, one request. *)
Lemma structured_run w url st :
  (let! json := fetchAcesphere w url in lift (parseAcesphereList json)) st
  = (structured w url, logged st [url]).
Proof.
  unfold bind, structured. rewrite fetchAcesphere_run.
  by destruct (acesphere w url).
Qed.

Lemma derivative_run w st :
  try_catch
    (let! derJson := fetchAcesphere w NEWS_URLS_derivative in
     lift (parseAcesphereList derJson))
    (fun e => ret []) st
  = (Ok (derivativeItems w), logged st [NEWS_URLS_derivative]).
Proof.
  unfold try_catch. rewrite structured_run. unfold derivativeItems.
  by destruct (structured w NEWS_URLS_derivative).
Qed.

Lemma general_run w st :
  try_catch
    (let! genJson := fetchAcesphere w NEWS_URLS_general in
     lift (parseAcesphereList genJson))
    (fun e =>
       let! nb := fetchNirmalbangHeadlines w in
       lift (Array_map fallbackRecord nb)) st
  = (generalItems w,
     logged st (NEWS_URLS_general
                :: match structured w NEWS_URLS_general with
                   | Ok _ => []
                   | Throw _ => [NIRMALBANG_GENERAL]
                   end)).
Proof.
  unfold try_catch. rewrite structured_run. unfold generalItems.
  destruct (structured w NEWS_URLS_general); [done|].
  unfold bind. rewrite fetchNirmalbangHeadlines_run.
  unfold lift, fallback, logged. simpl. by rewrite <- app_assoc.
Qed.

(** Both categories always have records to order, and the ordering always
    returns: the cycle never reaches its outer [catch]. *)
Lemma cycle_total w :
  exists dv gitems gv,
    finalize 4 (derivativeItems w) = Ok dv
    /\ generalItems w = Ok gitems
    /\ finalize 6 gitems = Ok gv.
Proof.
  assert (Hfin : forall cap items,
            Forall (fun r => exists o, newDate (Raw.dateRaw r) = Ok o) items ->
            exists out, finalize cap items = Ok out).
  { intros cap items [sorted Hs]%sortByDateDesc_total.
    unfold finalize. rewrite Hs. simpl. eauto. }
  assert (Hparsed : forall url items, structured w url = Ok items ->
            Forall (fun r => exists o, newDate (Raw.dateRaw r) = Ok o) items).
  { intros url items. unfold structured.
    destruct (acesphere w url) as [json|]; simpl; [|done].
    intros Hp%parseAcesphereList_records.
    eapply Forall_impl; [exact Hp|]. simpl. by intros r (_ & _ & ?). }
  destruct (Hfin 4%nat (derivativeItems w)) as [dv Hdv].
  { unfold derivativeItems.
    destruct (structured w NEWS_URLS_derivative) eqn:E; [|constructor].
    by eapply Hparsed. }
  assert (Hg : exists gitems, generalItems w = Ok gitems
            /\ Forall (fun r => exists o, newDate (Raw.dateRaw r) = Ok o) gitems).
  { unfold generalItems.
    destruct (structured w NEWS_URLS_general) eqn:E.
    - eexists. split; [done|]. by eapply Hparsed.
    - rewrite fallback_records. eexists. split; [done|].
      apply Forall_forall. intros r [n [-> _]]%list_elem_of_fmap. simpl.
      unfold newDate. simpl. eauto. }
  destruct Hg as (gitems & Hg & Hc).
  destruct (Hfin 6%nat gitems Hc) as [gv Hgv].
  exists dv, gitems, gv. done.
Qed.

End Cycle.
End RefreshFacts.

Module CycleFacts.
Import JS Eff App JSFacts SortFacts NormalizeFacts FallbackFacts HeapFacts RefreshFacts.

Section Cycle.
Context `{Host}.

Lemma refresh_run w st dv gitems gv :
  cache_allocated st ->
  finalize 4 (derivativeItems w) = Ok dv ->
  generalItems w = Ok gitems ->
  finalize 6 gitems = Ok gv ->
  exists st',
    refreshNewsNow w st = (Ok tt, st')
    /\ readSnapshot (heap st') cached
       = Some {| derivative := dv; general := gv;
                 lastUpdated := Some (toISOString (clock w)) |}
    /\ requests st' = requests st ++ cycleRequests w.
Proof.
  intros (d0 & g0 & lu0 & Hc) (ds & Hds & ->)%finalize_inv Hg
         (gs & Hgs & ->)%finalize_inv.
  unfold refreshNewsNow.
  unfold try_catch at 1. unfold bind at 1. rewrite derivative_run.
  unfold bind at 1. rewrite general_run, Hg.
  unfold bind at 1. unfold lift at 1. rewrite Hds.
  unfold bind at 1. unfold lift at 1. rewrite Hgs.
  set (st0 := logged (logged st _) _).
  assert (Hc0 : heap st0 !! cached = Some (HSnapshot d0 g0 lu0)) by done.
  destruct (finalArray_run (take 4 ds) st0)
    as (d & st1 & Hrun1 & Hsub1 & _ & Hreq1 & Hread1).
  unfold bind at 1. rewrite Hrun1.
  unfold bind at 1. unfold update at 1.
  set (st2 := {| heap := alter (set_derivative d) cached (heap st1);
                 requests := requests st1 |}).
  pose proof (lookup_weaken _ _ _ _ Hc0 Hsub1) as Hc1.
  assert (Hc2 : heap st2 !! cached = Some (HSnapshot d g0 lu0)).
  { subst st2. simpl. by rewrite lookup_alter_eq, Hc1. }
  assert (Hread2 : readArray (heap st2) d = Some (map finalItem (take 4 ds))).
  { subst st2. simpl.
    by rewrite (readArray_alter _ _ _ _ _ _ _ Hc1 (keepsSnapshot_set_derivative d)). }
  destruct (finalArray_run (take 6 gs) st2)
    as (g & st3 & Hrun3 & Hsub3 & _ & Hreq3 & Hread3).
  unfold bind at 1. rewrite Hrun3.
  unfold bind at 1. unfold update.
  pose proof (lookup_weaken _ _ _ _ Hc2 Hsub3) as Hc3.
  pose proof (readArray_weaken _ _ _ _ Hsub3 Hread2) as Hread3d.
  eexists. split; [reflexivity|]. cbn [heap requests]. split.
  - set (h4 := alter (set_general g) cached (heap st3)).
    assert (Hc4 : h4 !! cached = Some (HSnapshot d g lu0)).
    { subst h4. by rewrite lookup_alter_eq, Hc3. }
    unfold readSnapshot. rewrite lookup_alter_eq, Hc4. simpl.
    rewrite !(readArray_alter _ _ _ _ _ _ _ Hc4 (keepsSnapshot_set_lastUpdated _)).
    subst h4.
    rewrite !(readArray_alter _ _ _ _ _ _ _ Hc3 (keepsSnapshot_set_general g)).
    by rewrite Hread3d, Hread3.
  - rewrite Hreq3. subst st2. simpl. rewrite Hreq1. subst st0.
    unfold logged, cycleRequests. simpl. by rewrite <- app_assoc.
Qed.

(** The cycle as a whole: it returns, never through its outer [catch], with
    both lists and the time stamp replaced. *)
Lemma refresh_cycle w st :
  cache_allocated st ->
  exists dv gitems gv st',
    finalize 4 (derivativeItems w) = Ok dv
    /\ generalItems w = Ok gitems
    /\ finalize 6 gitems = Ok gv
    /\ refreshNewsNow w st = (Ok tt, st')
    /\ readSnapshot (heap st') cached
       = Some {| derivative := dv; general := gv;
                 lastUpdated := Some (toISOString (clock w)) |}
    /\ requests st' = requests st ++ cycleRequests w.
Proof.
  intros Hc. destruct (cycle_total w) as (dv & gitems & gv & Hdv & Hg & Hgv).
  destruct (refresh_run w st dv gitems gv Hc Hdv Hg Hgv) as (st' & ? & ? & ?).
  exists dv, gitems, gv, st'. done.
Qed.

Lemma initial_allocated : cache_allocated initial.
Proof. exists 2%positive, 3%positive, None. done. Qed.

Lemma readSnapshot_allocated st snap :
  readSnapshot (heap st) cached = Some snap -> cache_allocated st.
Proof.
  unfold readSnapshot, cache_allocated.
  destruct (heap st !! cached) as [[]|]; try done. eauto.
Qed.

(** C1, as amended. A cycle in which every strategy fails (both structured
    fetches throw and the fallback yields nothing) still completes, and it
    replaces the snapshot: both lists become empty and lastUpdated becomes
    the time of the cycle. *)
Theorem refresh_all_fail_empties (w : world) (st : state) :
  cache_allocated st ->
  (exists e, fst (fetchAcesphere w NEWS_URLS_derivative st) = Throw e) ->
  (exists e, fst (fetchAcesphere w NEWS_URLS_general st) = Throw e) ->
  fst (fetchNirmalbangHeadlines w st) = Ok [] ->
  exists st',
    refreshNewsNow w st = (Ok tt, st')
    /\ readSnapshot (heap st') cached
       = Some {| derivative := []; general := [];
                 lastUpdated := Some (toISOString (clock w)) |}.
Proof.
  intros Hc [ed Hd] [eg Hg] Hn.
  rewrite fetchAcesphere_run in Hd, Hg. rewrite fetchNirmalbangHeadlines_run in Hn.
  simpl in Hd, Hg, Hn. injection Hn as Hn.
  destruct (refresh_run w st [] [] [] Hc) as (st' & Hrun & Hread & _).
  - unfold derivativeItems, structured. by rewrite Hd.
  - unfold generalItems, structured. rewrite Hg. simpl.
    by rewrite fallback_records, Hn.
  - done.
  - eauto.
Qed.

End Cycle.

(** With no upstream answering, a cycle from the initial state. *)
Lemma refresh_all_fail_empties_witness :
  exists st',
    @refreshNewsNow Examples.utc Examples.offline initial = (Ok tt, st')
    /\ readSnapshot (heap st') cached
       = Some {| derivative := []; general := [];
                 lastUpdated :=
                   Some (toISOString (clock Examples.offline)) |}.
Proof.
  apply (@refresh_all_fail_empties Examples.utc Examples.offline initial).
  - apply initial_allocated.
  - exists FetchFailed. reflexivity.
  - exists FetchFailed. reflexivity.
  - reflexivity.
Defined.

(** C1 as stated fails: after a cycle that filled the general list from the
    fallback, a cycle in which every fetch throws leaves both lists empty and
    a new time stamp, not the snapshot held before. *)
Lemma failed_cycle_drops_snapshot :
  let before := snd (@refreshNewsNow Examples.utc Examples.fallbackOnly initial) in
  let after := snd (@refreshNewsNow Examples.utc Examples.offline before) in
  fst (@fetchAcesphere Examples.utc Examples.offline NEWS_URLS_derivative before)
    = Throw FetchFailed
  /\ fst (@fetchAcesphere Examples.utc Examples.offline NEWS_URLS_general before)
    = Throw FetchFailed
  /\ fst (fetchNirmalbangHeadlines Examples.offline before) = Ok []
  /\ readSnapshot (heap before) cached
     = Some {| derivative := [];
               general := [{| date := []; headline := u "Sensex gains 300 points" |};
                           {| date := []; headline := u "Rupee opens flat" |}];
               lastUpdated := Some (u "2024-01-02T15:04:00.123Z") |}
  /\ readSnapshot (heap after) cached
     = Some {| derivative := []; general := [];
               lastUpdated := Some (u "2024-01-03T15:00:00.000Z") |}
  /\ readSnapshot (heap after) cached <> readSnapshot (heap before) cached.
Proof. vm_compute. repeat split; discriminate. Qed.
End CycleFacts.

Module CategoryTheorems.
Import JS Eff App JSFacts SortFacts NormalizeFacts FallbackFacts HeapFacts
       RefreshFacts CycleFacts.

Section Categories.
Context `{Host}.

Lemma structured_fetch_throws w st e :
  fst (fetchAcesphere w NEWS_URLS_general st) = Throw e ->
  structured w NEWS_URLS_general = Throw e.
Proof.
  rewrite fetchAcesphere_run. simpl. unfold structured. by intros ->.
Qed.

(** C3. When the structured general fetch throws, the general list of the
    cycle is what the fallback alone yields: its headlines as records, in the
    same ordering, cut at 6 (each with an empty date); the structured
    endpoint is requested once, then the fallback page. A body whose first
    unit after white space is [<] makes the structured fetch throw the
    "returned HTML" error. *)
Theorem general_falls_back (w : world) (st : state) :
  cache_allocated st ->
  (forall text,
     net w NEWS_URLS_general = Some text ->
     startsWith (u "<") (trim text) = true ->
     fst (fetchAcesphere w NEWS_URLS_general st) = Throw ErrorHTML)
  /\
  ((exists e, fst (fetchAcesphere w NEWS_URLS_general st) = Throw e) ->
  exists st' snap nb records sorted,
    refreshNewsNow w st = (Ok tt, st')
    /\ readSnapshot (heap st') cached = Some snap
    /\ fst (fetchNirmalbangHeadlines w st) = Ok nb
    /\ Array_map fallbackRecord nb = Ok records
    /\ sortByDateDesc records = Ok sorted
    /\ general snap = map finalItem (take 6 sorted)
    /\ general snap
       = map (fun n => {| date := []; headline := Nb.headline n |}) (take 6 nb)
    /\ requests st'
       = requests st
         ++ [NEWS_URLS_derivative; NEWS_URLS_general; NIRMALBANG_GENERAL]).
Proof.
  intros Hc. split.
  { intros text Hn Hs. rewrite fetchAcesphere_run. simpl. unfold acesphere.
    by rewrite Hn, Hs. }
  intros [e He%structured_fetch_throws].
  destruct (refresh_cycle w st Hc)
    as (dv & gitems & gv & st' & _ & Hg & Hgv & Hrun & Hread & Hreq).
  unfold generalItems in Hg. rewrite He in Hg.
  pose proof (fallback_records w) as Hfb. rewrite Hg in Hfb. injection Hfb as ->.
  set (records := map _ (nirmalbang w)) in *.
  assert (Hs : sortByDateDesc records = Ok records).
  { apply sortByDateDesc_undated. subst records.
    apply Forall_forall. by intros r [n [-> _]]%list_elem_of_fmap. }
  unfold finalize in Hgv. rewrite Hs in Hgv. simpl in Hgv. injection Hgv as <-.
  exists st', {| derivative := dv; general := map finalItem (take 6 records);
                 lastUpdated := Some (toISOString (clock w)) |},
    (nirmalbang w), records, records.
  split; [done|]. split; [done|].
  split; [by rewrite fetchNirmalbangHeadlines_run|].
  split; [done|]. split; [done|]. split; [done|]. split.
  - simpl. subst records. rewrite <- fmap_take, <- list_fmap_compose. done.
  - rewrite Hreq. unfold cycleRequests. by rewrite He.
Qed.




(** *** The scenario payload *)

Lemma format_under_utc s t out :
  newDate (VString s) = Ok (Some t) ->
  s <> [] ->
  LocalTZA t true = 0 ->
  (pad (DateFromTime t) ++ u "-" ++ pad (MonthFromTime t + 1) ++ u "-"
   ++ intToString (YearFromTime t) ++ u " " ++ pad (HourFromTime t) ++ u ":"
   ++ pad (MinFromTime t)) = out ->
  formatDateToDDMMYYYY_HHMM (VString s) = Ok out.
Proof.
  intros Hd Hs Htz <-.
  rewrite (FormatTheorems.formatDate_valid _ t); [|by apply truthy_string|done].
  unfold LocalTime. by rewrite Htz, Z.add_0_r.
Qed.

Lemma scenario_normalized :
  LocalTZA 1704207840000 true = 0 ->
  LocalTZA 1704272400000 true = 0 ->
  parseAcesphereList Examples.scenarioPayload
  = Ok [{| Raw.headline := u "A";
           Raw.dateRaw := VString (u "2024-01-02T15:04:00Z");
           Raw.date := u "02-01-2024 15:04" |};
        {| Raw.headline := u "B";
           Raw.dateRaw := VString (u "2024-01-03T09:00:00Z");
           Raw.date := u "03-01-2024 09:00" |}].
Proof.
  intros HA HB.
  assert (FA : formatDateToDDMMYYYY_HHMM (VString (u "2024-01-02T15:04:00Z"))
               = Ok (u "02-01-2024 15:04")).
  { apply (format_under_utc _ 1704207840000); [by vm_compute|done|done|by vm_compute]. }
  assert (FB : formatDateToDDMMYYYY_HHMM (VString (u "2024-01-03T09:00:00Z"))
               = Ok (u "03-01-2024 09:00")).
  { apply (format_under_utc _ 1704272400000); [by vm_compute|done|done|by vm_compute]. }
  unfold parseAcesphereList.
  replace (locateList Examples.scenarioPayload)
    with (VArray
            [VObject [(u "Title", VString (u "A"));
                      (u "DateTime", VString (u "2024-01-02T15:04:00Z"))];
             VObject [(u "Title", VString (u "B"));
                      (u "DateTime", VString (u "2024-01-03T09:00:00Z"))]])
    by (by vm_compute).
  cbn [Array_map]. unfold normalizeItem.
  replace (extractDate (VObject [(u "Title", VString (u "A"));
                                 (u "DateTime", VString (u "2024-01-02T15:04:00Z"))]))
    with (Ok (VString (u "2024-01-02T15:04:00Z"))) by (by vm_compute).
  replace (extractDate (VObject [(u "Title", VString (u "B"));
                                 (u "DateTime", VString (u "2024-01-03T09:00:00Z"))]))
    with (Ok (VString (u "2024-01-03T09:00:00Z"))) by (by vm_compute).
  replace (extractHeadline (VObject [(u "Title", VString (u "A"));
                                     (u "DateTime", VString (u "2024-01-02T15:04:00Z"))]))
    with (Ok (VString (u "A"))) by (by vm_compute).
  replace (extractHeadline (VObject [(u "Title", VString (u "B"));
                                     (u "DateTime", VString (u "2024-01-03T09:00:00Z"))]))
    with (Ok (VString (u "B"))) by (by vm_compute).
  cbn [obind ToString]. rewrite FA, FB. cbn [obind]. by vm_compute.
Qed.

(** C2, as amended. When the local time zone offset is zero at the two
    instants of the payload (the process runs in UTC), normalizing, ordering
    and capping the scenario payload yields B (03-01-2024 09:00) then A
    (02-01-2024 15:04), under either cap; and a cycle whose structured general
    fetch returns that payload caches exactly this list as the general list. *)
Theorem scenario_under_utc :
  LocalTZA 1704207840000 true = 0 ->
  LocalTZA 1704272400000 true = 0 ->
  (try! items := parseAcesphereList Examples.scenarioPayload in finalize 6 items)
  = Ok Examples.scenarioExpected
  /\ (try! items := parseAcesphereList Examples.scenarioPayload in finalize 4 items)
     = Ok Examples.scenarioExpected
  /\ forall w st text,
       cache_allocated st ->
       net w NEWS_URLS_general = Some text ->
       startsWith (u "<") (trim text) = false ->
       JSON_parse text = Some Examples.scenarioPayload ->
       exists st' snap,
         refreshNewsNow w st = (Ok tt, st')
         /\ readSnapshot (heap st') cached = Some snap
         /\ general snap = Examples.scenarioExpected.
Proof.
  intros HA HB. pose proof (scenario_normalized HA HB) as Hp.
  assert (H6 : finalize 6
                 [{| Raw.headline := u "A";
                     Raw.dateRaw := VString (u "2024-01-02T15:04:00Z");
                     Raw.date := u "02-01-2024 15:04" |};
                  {| Raw.headline := u "B";
                     Raw.dateRaw := VString (u "2024-01-03T09:00:00Z");
                     Raw.date := u "03-01-2024 09:00" |}]
               = Ok Examples.scenarioExpected) by (by vm_compute).
  split; [by rewrite Hp|]. split; [rewrite Hp; by vm_compute|].
  intros w st text Hc Hn Hs Hj.
  destruct (refresh_cycle w st Hc)
    as (dv & gitems & gv & st' & _ & Hg & Hgv & Hrun & Hread & _).
  assert (Hst : structured w NEWS_URLS_general
                = parseAcesphereList Examples.scenarioPayload).
  { unfold structured, acesphere. by rewrite Hn, Hs, Hj. }
  unfold generalItems in Hg. rewrite Hst, Hp in Hg. injection Hg as <-.
  rewrite H6 in Hgv. injection Hgv as <-.
  eexists st', _. split; [done|]. split; [exact Hread|]. done.
Qed.

End Categories.

(** C2 as stated fails where local time is not UTC: the getters of the
    formatter are local-time ones. In India Standard Time the same payload
    yields B at 14:30 and A at 20:34. *)
Lemma scenario_in_ist :
  (try! items := @parseAcesphereList Examples.ist Examples.scenarioPayload in
   @finalize Examples.ist 6 items)
  = Ok [{| date := u "03-01-2024 14:30"; headline := u "B" |};
        {| date := u "02-01-2024 20:34"; headline := u "A" |}]
  /\ (try! items := @parseAcesphereList Examples.ist Examples.scenarioPayload in
      @finalize Examples.ist 6 items)
     <> Ok Examples.scenarioExpected.
Proof. vm_compute. split; [reflexivity|discriminate]. Qed.

(** The scenario on a host in UTC. *)
Lemma scenario_under_utc_witness :
  (try! items := @parseAcesphereList Examples.utc Examples.scenarioPayload in
   @finalize Examples.utc 6 items)
  = Ok Examples.scenarioExpected.
Proof.
  apply (@scenario_under_utc Examples.utc); reflexivity.
Defined.

(** ACESPHERE answers with an HTML error page: the general list is the
    fallback's. *)
Lemma general_falls_back_witness :
  fst (@fetchAcesphere Examples.utc Examples.htmlErrorPage NEWS_URLS_general initial)
  = Throw ErrorHTML
  /\ exists st' snap,
       @refreshNewsNow Examples.utc Examples.htmlErrorPage initial = (Ok tt, st')
       /\ readSnapshot (heap st') cached = Some snap
       /\ general snap
          = [{| date := []; headline := u "Sensex gains 300 points" |}].
Proof.
  destruct (@general_falls_back Examples.utc Examples.htmlErrorPage initial
              initial_allocated) as [Hhtml Hfb].
  split; [by eapply Hhtml|].
  destruct Hfb as (st' & snap & nb & records & sorted & Hrun & Hread & Hnb & _ & _ & _ & Hg & _).
  { exists ErrorHTML. by eapply Hhtml. }
  exists st', snap. split; [done|]. split; [done|].
  rewrite Hg. injection Hnb as <-. reflexivity.
Defined.


End CategoryTheorems.

(** *** The accessor *)

Module AccessorTheorems.
Import JS Eff App HeapFacts CycleFacts.

Lemma readSnapshot_inv (h : gmap loc hobj) l snap :
  readSnapshot h l = Some snap ->
  exists d g,
    h !! l = Some (HSnapshot d g (lastUpdated snap))
    /\ readArray h d = Some (derivative snap)
    /\ readArray h g = Some (general snap).
Proof.
  unfold readSnapshot. destruct (h !! l) as [[| |d g lu]|]; try done.
  destruct (readArray h d) as [dv|] eqn:Ed; simpl; [|done].
  destruct (readArray h g) as [gv|] eqn:Eg; simpl; [|done].
  intros [= <-]. exists d, g. done.
Qed.

Lemma readSnapshot_intro (h : gmap loc hobj) l d g lu dv gv :
  h !! l = Some (HSnapshot d g lu) ->
  readArray h d = Some dv -> readArray h g = Some gv ->
  readSnapshot h l = Some {| derivative := dv; general := gv; lastUpdated := lu |}.
Proof. unfold readSnapshot. by intros -> -> ->. Qed.

Lemma readArray_inv (h : gmap loc hobj) a vs :
  readArray h a = Some vs ->
  exists ls, h !! a = Some (HArray ls) /\ mapM (readItem h) ls = Some vs.
Proof.
  unfold readArray. destruct (h !! a) as [[]|]; try done. eauto.
Qed.

(** An array object is no record: changing one in place leaves every record
    as it reads. *)
Lemma readItem_alter_array (h : gmap loc hobj) g ls f e :
  h !! g = Some (HArray ls) -> (exists ls', f (HArray ls) = HArray ls') ->
  readItem (alter f g h) e = readItem h e.
Proof.
  intros Hg [ls' Hf]. unfold readItem. rewrite lookup_alter.
  destruct (decide (g = e)) as [<-|]; [|done]. by rewrite Hg; simpl; rewrite Hf.
Qed.

(** [arr.push(x)] is seen through every reference to the array. *)
Lemma readArray_push (st : state) g a vs x :
  (exists ls, heap st !! g = Some (HArray ls)) ->
  readArray (heap st) a = Some vs ->
  readArray (heap (snd (Caller.push g x st))) a
  = Some (if decide (a = g) then vs ++ [x] else vs).
Proof.
  intros [ls Hg] (la & Ha & Hvs)%readArray_inv.
  unfold Caller.push, bind, alloc, update. simpl.
  set (l := fresh (dom (heap st))).
  set (h1 := <[l := HItem x]> (heap st)).
  assert (Hsub : heap st ⊆ h1) by apply insert_fresh_subseteq.
  pose proof (lookup_weaken _ _ _ _ Hg Hsub) as Hg1.
  assert (Hlg : l <> g).
  { intros E. pose proof (fresh_None (heap st)) as Hn. fold l in Hn.
    rewrite E, Hg in Hn. done. }
  set (F := fun o => match o with HArray ls0 => HArray (ls0 ++ [l]) | _ => o end).
  assert (Hitems : forall e, readItem (alter F g h1) e = readItem h1 e).
  { intros e. apply (readItem_alter_array _ _ ls). done. simpl. eauto. }
  assert (Hold : forall ks ws, mapM (readItem (heap st)) ks = Some ws ->
                 mapM (readItem (alter F g h1)) ks = Some ws).
  { intros ks ws Hk. apply mapM_Some. apply mapM_Some in Hk.
    eapply Forall2_impl; [exact Hk|]. intros e v He. rewrite Hitems.
    by apply (readItem_weaken (heap st)). }
  unfold readArray. rewrite lookup_alter.
  destruct (decide (a = g)) as [->|Hne].
  - rewrite decide_True by done. rewrite Hg1. simpl.
    rewrite Hg in Ha. injection Ha as <-.
    apply mapM_Some. apply Forall2_app; [by apply mapM_Some, Hold|].
    constructor; [|constructor]. rewrite Hitems. unfold readItem, h1.
    by rewrite lookup_insert_eq.
  - rewrite decide_False by done.
    rewrite (lookup_weaken _ _ _ _ Ha Hsub). by apply Hold.
Qed.

Lemma getCachedNews_run (st : state) d g lu :
  heap st !! cached = Some (HSnapshot d g lu) ->
  getCachedNews st
  = (Ok (fresh (dom (heap st))),
     {| heap := <[fresh (dom (heap st)) := HSnapshot d g lu]> (heap st);
        requests := requests st |}).
Proof. intros Hc. unfold getCachedNews. by rewrite Hc. Qed.

Lemma readSnapshot_weaken (h h' : gmap loc hobj) l snap :
  h ⊆ h' -> readSnapshot h l = Some snap -> readSnapshot h' l = Some snap.
Proof.
  intros Hsub (d & g & Hl & Hd & Hg)%readSnapshot_inv.
  destruct snap as [dv gv lu]. simpl in *.
  apply (readSnapshot_intro _ _ d g).
  - by apply (lookup_weaken h).
  - by apply (readArray_weaken h).
  - by apply (readArray_weaken h).
Qed.

(** C8, as amended. The accessor returns a new object, whose lists read as
    the cache's, and giving a property of that object a new value leaves the
    cache as it was. But the object holds the cache's own two arrays, not
    copies: a record pushed on the returned general list is in the cache's
    general list at the next read. *)
Theorem getCachedNews_shares_lists (st : state) (snap : snapshot) :
  readSnapshot (heap st) cached = Some snap ->
  exists r st1 d g,
    getCachedNews st = (Ok r, st1)
    /\ heap st !! r = None
    /\ readSnapshot (heap st1) r = Some snap
    /\ readSnapshot (heap st1) cached = Some snap
    /\ heap st1 !! r = Some (HSnapshot d g (lastUpdated snap))
    /\ heap st1 !! cached = Some (HSnapshot d g (lastUpdated snap))
    /\ (forall f l t,
         readSnapshot (heap (snd (Caller.assign r f l t st1))) cached
         = Some snap)
    /\ (forall x,
         general <$> readSnapshot (heap (snd (Caller.push g x st1))) cached
         = Some (general snap ++ [x])).
Proof.
  intros Hread.
  destruct (readSnapshot_inv _ _ _ Hread) as (d & g & Hc & Hd & Hg).
  set (r := fresh (dom (heap st))).
  set (st1 := {| heap := <[r := HSnapshot d g (lastUpdated snap)]> (heap st);
                 requests := requests st |}).
  assert (Hr : heap st !! r = None) by apply fresh_None.
  assert (Hsub : heap st ⊆ heap st1) by apply insert_fresh_subseteq.
  assert (Hrc : r <> cached) by (intros E; rewrite E, Hc in Hr; done).
  assert (Hr1 : heap st1 !! r = Some (HSnapshot d g (lastUpdated snap)))
    by apply lookup_insert_eq.
  pose proof (lookup_weaken _ _ _ _ Hc Hsub) as Hc1.
  pose proof (readArray_weaken _ _ _ _ Hsub Hd) as Hd1.
  pose proof (readArray_weaken _ _ _ _ Hsub Hg) as Hg1.
  pose proof (readSnapshot_weaken _ _ _ _ Hsub Hread) as Hread1.
  exists r, st1, d, g.
  split; [by apply getCachedNews_run|]. split; [done|].
  split.
  { destruct snap as [dv gv lu]. by apply (readSnapshot_intro _ _ d g). }
  split; [done|]. split; [done|]. split; [done|]. split.
  - intros f l t. unfold Caller.assign, update. cbn [snd heap].
    assert (Hk : keepsSnapshot (match f with
                                | Caller.Derivative => set_derivative l
                                | Caller.General => set_general l
                                | Caller.LastUpdated => set_lastUpdated t
                                end)).
    { destruct f; [apply keepsSnapshot_set_derivative
                  |apply keepsSnapshot_set_general
                  |apply keepsSnapshot_set_lastUpdated]. }
    destruct snap as [dv gv lu]. simpl in *.
    apply (readSnapshot_intro _ _ d g).
    + by rewrite lookup_alter_ne.
    + by rewrite (readArray_alter _ _ _ _ _ _ _ Hr1 Hk).
    + by rewrite (readArray_alter _ _ _ _ _ _ _ Hr1 Hk).
  - intros x.
    destruct (readArray_inv _ _ _ Hg1) as (ls & Hgl & _).
    pose proof (readArray_push st1 g d _ x (ex_intro _ ls Hgl) Hd1) as Hpd.
    pose proof (readArray_push st1 g g _ x (ex_intro _ ls Hgl) Hg1) as Hpg.
    rewrite decide_True in Hpg by done.
    assert (Hc2 : heap (snd (Caller.push g x st1)) !! cached
                  = Some (HSnapshot d g (lastUpdated snap))).
    { unfold Caller.push, bind, alloc, update. cbn [snd heap].
      rewrite lookup_alter_ne by (intros E; rewrite E, Hc1 in Hgl; done).
      rewrite lookup_insert_ne; [done|].
      intros E. pose proof (fresh_None (heap st1)) as Hn.
      rewrite E, Hc1 in Hn. done. }
    rewrite (readSnapshot_intro _ _ _ _ _ _ _ Hc2 Hpd Hpg). done.
Qed.

(** The accessor on the initial cache. *)
Lemma getCachedNews_shares_lists_witness :
  exists r st1,
    getCachedNews initial = (Ok r, st1)
    /\ readSnapshot (heap st1) r
       = Some {| derivative := []; general := []; lastUpdated := None |}.
Proof.
  destruct (getCachedNews_shares_lists initial
              {| derivative := []; general := []; lastUpdated := None |}
              eq_refl) as (r & st1 & d & g & Hrun & _ & Hread & _).
  exists r, st1. done.
Defined.

(** C8 as stated fails: appending to the general list of the returned object
    changes what the next read of the cache returns. *)
Lemma push_through_accessor_reaches_cache :
  readSnapshot (heap initial) cached
  = Some {| derivative := []; general := []; lastUpdated := None |}
  /\ readSnapshot
       (heap (snd (Caller.pushGeneral
                     {| date := u "01-01-2024 00:00"; headline := u "Injected" |}
                     initial))) cached
     = Some {| derivative := [];
               general := [{| date := u "01-01-2024 00:00";
                              headline := u "Injected" |}];
               lastUpdated := None |}
  /\ readSnapshot
       (heap (snd (Caller.pushGeneral
                     {| date := u "01-01-2024 00:00"; headline := u "Injected" |}
                     initial))) cached
     <> readSnapshot (heap initial) cached.
Proof. vm_compute. repeat split; discriminate. Qed.

End AccessorTheorems.

(** *** The /news endpoint *)

Module ServerTheorems.
Import JS Eff Server NormalizeFacts.

Section Endpoint.
Context `{Host}.

Lemma eachContainer_eq news el :
  eachContainer news el
  = if bothPresent el then news ++ [recordOf el] else news.
Proof. reflexivity. Qed.

Lemma fold_eachContainer els news :
  fold_left eachContainer els news
  = news ++ map recordOf (List.filter bothPresent els).
Proof.
  revert news. induction els as [|el els IH]; intros news.
  - simpl. by rewrite app_nil_r.
  - cbn [fold_left List.filter]. rewrite IH, eachContainer_eq.
    destruct (bothPresent el); [|done].
    cbn [map]. by rewrite <- app_assoc.
Qed.

Lemma bothPresent_iff el :
  bothPresent el = true <-> headlineText el <> [] /\ dateText el <> [].
Proof. unfold bothPresent. by rewrite andb_true_iff, !truthy_string. Qed.

(** C10. The parser's output is, in document order, one record for each
    matched container whose trimmed headline text and trimmed date text are
    both non-empty, and nothing else: a container with a headline but no date
    text adds no record. *)
Theorem parseHtmlNews_keeps_complete (html : jsstring) :
  parseHtmlNews html
  = map recordOf
      (List.filter bothPresent
         (select (u "GrNewsMainCont") (cheerio_load html)))
  /\ (forall el,
        bothPresent el = true <-> headlineText el <> [] /\ dateText el <> [])
  /\ (forall r,
        r ∈ parseHtmlNews html <->
        exists el,
          el ∈ select (u "GrNewsMainCont") (cheerio_load html)
          /\ headlineText el <> [] /\ dateText el <> []
          /\ r = recordOf el)
  /\ (forall news el, dateText el = [] -> eachContainer news el = news).
Proof.
  assert (Hp : parseHtmlNews html
               = map recordOf
                   (List.filter bothPresent
                      (select (u "GrNewsMainCont") (cheerio_load html)))).
  { unfold parseHtmlNews. by rewrite fold_eachContainer. }
  split; [done|]. split; [apply bothPresent_iff|]. split.
  - intros r. rewrite Hp, list_elem_of_fmap. split.
    + intros (el & -> & Hel). apply list_elem_of_In, filter_In in Hel as [Hel Hb].
      apply bothPresent_iff in Hb as [Hh Hd].
      exists el. by rewrite list_elem_of_In.
    + intros (el & Hel & Hh & Hd & ->). exists el. split; [done|].
      apply list_elem_of_In, filter_In. split; [by apply list_elem_of_In|].
      by apply bothPresent_iff.
  - intros news el Hd. rewrite eachContainer_eq.
    destruct (bothPresent el) eqn:E; [|done].
    apply bothPresent_iff in E as [_ E]. done.
Qed.

(** C9. A request past the TTL whose fetch of either category fails is
    answered with the cached news, and leaves [cachedNews] and [lastFetched]
    as they were; both upstream URLs were requested; and since [lastFetched]
    did not move, any later request past the TTL requests them again. *)
Theorem getNews_failure_keeps_cache (w : world) (st : state) :
  CACHE_TTL <= clock w - lastFetched st ->
  axios w NB_GENERAL = None \/ axios w NB_DERIVATIVE = None ->
  exists st',
    getNews w st = (Ok (cachedNews st), st')
    /\ cachedNews st' = cachedNews st
    /\ lastFetched st' = lastFetched st
    /\ requests st' = requests st ++ [NB_GENERAL; NB_DERIVATIVE]
    /\ forall w',
         CACHE_TTL <= clock w' - lastFetched st' ->
         requests (snd (getNews w' st'))
         = requests st' ++ [NB_GENERAL; NB_DERIVATIVE].
Proof.
  intros Httl Hfail.
  assert (Hreq : forall w' st0,
            CACHE_TTL <= clock w' - lastFetched st0 ->
            requests (snd (getNews w' st0))
            = requests st0 ++ [NB_GENERAL; NB_DERIVATIVE]).
  { intros w' st0 Ht. unfold getNews.
    destruct (Z.ltb_spec (clock w' - lastFetched st0) CACHE_TTL); [lia|].
    unfold try_catch, bind, Promise_all2, fetchNews, set_cache, res_json.
    destruct (axios w' NB_GENERAL), (axios w' NB_DERIVATIVE); simpl;
      by rewrite <- app_assoc. }
  exists {| cachedNews := cachedNews st; lastFetched := lastFetched st;
            requests := requests st ++ [NB_GENERAL; NB_DERIVATIVE] |}.
  split.
  - unfold getNews.
    destruct (Z.ltb_spec (clock w - lastFetched st) CACHE_TTL); [lia|].
    unfold try_catch, bind, Promise_all2, fetchNews, set_cache, res_json.
    destruct Hfail as [-> | ->]; [|destruct (axios w NB_GENERAL)];
      simpl; by rewrite <- app_assoc.
  - split; [done|]. split; [done|]. split; [done|].
    intros w' Ht. by apply Hreq.
Qed.

End Endpoint.

(** The first request of a server whose derivative upstream is down. *)
Lemma getNews_failure_keeps_cache_witness :
  exists st',
    @getNews Examples.utc Examples.derivativeDown initial
    = (Ok (cachedNews initial), st')
    /\ cachedNews st' = cachedNews initial
    /\ lastFetched st' = lastFetched initial.
Proof.
  destruct (@getNews_failure_keeps_cache Examples.utc Examples.derivativeDown
              initial) as (st' & Hrun & Hc & Hl & _).
  - vm_compute. discriminate.
  - right. reflexivity.
  - exists st'. done.
Defined.

End ServerTheorems.



(** *** The cycle and the categories *)

Module CycleTheorems.
Import JS Eff App JSFacts SortFacts NormalizeFacts FallbackFacts HeapFacts
       RefreshFacts CycleFacts.

Section Cycles.
Context `{Host}.

(** X1. What a cycle leaves in the cache is decided by the world of the cycle
    alone: the lists held before play no part. *)
Theorem refresh_forgets_previous_cache (w : world) (st1 st2 : state) :
  cache_allocated st1 -> cache_allocated st2 ->
  exists snap,
    readSnapshot (heap (snd (refreshNewsNow w st1))) cached = Some snap
    /\ readSnapshot (heap (snd (refreshNewsNow w st2))) cached = Some snap.
Proof.
  intros H1 H2.
  destruct (cycle_total w) as (dv & gitems & gv & Hdv & Hg & Hgv).
  destruct (refresh_run w st1 dv gitems gv H1 Hdv Hg Hgv) as (s1 & R1 & E1 & _).
  destruct (refresh_run w st2 dv gitems gv H2 Hdv Hg Hgv) as (s2 & R2 & E2 & _).
  eexists. rewrite R1, R2. simpl. split; [exact E1|exact E2].
Qed.

Lemma structured_same_net w1 w2 url :
  net w1 url = net w2 url -> structured w1 url = structured w2 url.
Proof. unfold structured, acesphere. by intros ->. Qed.

(** X2. The categories are isolated: the derivative list of a cycle is decided
    by the answer of the derivative URL alone, and the general list by the
    answers of the general URL and of the fallback page alone. *)
Theorem categories_are_isolated (w1 w2 : world) (st1 st2 : state) :
  cache_allocated st1 -> cache_allocated st2 ->
  exists s1 s2,
    readSnapshot (heap (snd (refreshNewsNow w1 st1))) cached = Some s1
    /\ readSnapshot (heap (snd (refreshNewsNow w2 st2))) cached = Some s2
    /\ (net w1 NEWS_URLS_derivative = net w2 NEWS_URLS_derivative ->
        derivative s1 = derivative s2)
    /\ (net w1 NEWS_URLS_general = net w2 NEWS_URLS_general ->
        net w1 NIRMALBANG_GENERAL = net w2 NIRMALBANG_GENERAL ->
        general s1 = general s2).
Proof.
  intros H1 H2.
  destruct (refresh_cycle w1 st1 H1)
    as (dv1 & gi1 & gv1 & s1 & Hdv1 & Hg1 & Hgv1 & R1 & E1 & _).
  destruct (refresh_cycle w2 st2 H2)
    as (dv2 & gi2 & gv2 & s2 & Hdv2 & Hg2 & Hgv2 & R2 & E2 & _).
  eexists _, _. rewrite R1, R2. simpl.
  split; [exact E1|]. split; [exact E2|]. simpl. split.
  - intros Hn. unfold derivativeItems in Hdv1, Hdv2.
    rewrite (structured_same_net w1 w2 _ Hn), Hdv2 in Hdv1. by injection Hdv1.
  - intros Hn Hf. unfold generalItems, fallback, nirmalbang in Hg1, Hg2.
    rewrite (structured_same_net w1 w2 _ Hn), Hf, Hg2 in Hg1.
    injection Hg1 as <-. rewrite Hgv2 in Hgv1. by injection Hgv1.
Qed.

(** X3. The derivative category has no fallback: when its structured strategy
    throws (the fetch, the JSON parser or the normalizer), its list is empty
    after the cycle, whatever the fallback page holds. *)
Theorem derivative_has_no_fallback (w : world) (st : state) :
  cache_allocated st ->
  (exists e,
     fst ((let! derJson := fetchAcesphere w NEWS_URLS_derivative in
           lift (parseAcesphereList derJson)) st) = Throw e) ->
  exists st' snap,
    refreshNewsNow w st = (Ok tt, st')
    /\ readSnapshot (heap st') cached = Some snap
    /\ derivative snap = [].
Proof.
  intros Hc [e He]. rewrite structured_run in He. simpl in He.
  destruct (refresh_cycle w st Hc)
    as (dv & gi & gv & st' & Hdv & _ & _ & R & E & _).
  unfold derivativeItems in Hdv. rewrite He in Hdv.
  assert (dv = []) as -> by (by vm_compute in Hdv; injection Hdv).
  eexists _, _. split; [exact R|]. split; [exact E|]. done.
Qed.


End Cycles.

Lemma refresh_forgets_previous_cache_witness :
  exists snap,
    readSnapshot
      (heap (snd (@refreshNewsNow Examples.utc Examples.offline initial))) cached
    = Some snap
    /\ readSnapshot
         (heap (snd (@refreshNewsNow Examples.utc Examples.offline
                       (snd (@refreshNewsNow Examples.utc Examples.fallbackOnly
                               initial))))) cached
       = Some snap.
Proof.
  apply (@refresh_forgets_previous_cache Examples.utc).
  - apply initial_allocated.
  - eapply readSnapshot_allocated. vm_compute. reflexivity.
Defined.

Lemma categories_are_isolated_witness :
  exists s1 s2,
    readSnapshot
      (heap (snd (@refreshNewsNow Examples.utc Examples.offline initial))) cached
    = Some s1
    /\ readSnapshot
         (heap (snd (@refreshNewsNow Examples.utc Examples.fallbackOnly initial)))
         cached = Some s2
    /\ derivative s1 = derivative s2.
Proof.
  destruct (@categories_are_isolated Examples.utc Examples.offline
              Examples.fallbackOnly initial initial
              initial_allocated initial_allocated)
    as (s1 & s2 & E1 & E2 & Hd & _).
  exists s1, s2. split; [done|]. split; [done|]. apply Hd. reflexivity.
Defined.

Lemma derivative_has_no_fallback_witness :
  exists st' snap,
    @refreshNewsNow Examples.utc Examples.fallbackOnly initial = (Ok tt, st')
    /\ readSnapshot (heap st') cached = Some snap
    /\ derivative snap = [].
Proof.
  apply (@derivative_has_no_fallback Examples.utc).
  - apply initial_allocated.
  - exists FetchFailed. reflexivity.
Defined.


End CycleTheorems.



(** *** The updater and the objects handed out *)

Module UpdaterTheorems.
Import JS Eff App JSFacts SortFacts NormalizeFacts FallbackFacts HeapFacts
       RefreshFacts CycleFacts AccessorTheorems.

(** Reading an array or a snapshot object other than the cache object needs
    no more than the objects other than the cache object. *)
Lemma readArray_frame (h h' : gmap loc hobj) a vs :
  cache_allocated {| heap := h; requests := [] |} ->
  (forall l o, l <> cached -> h !! l = Some o -> h' !! l = Some o) ->
  readArray h a = Some vs -> readArray h' a = Some vs.
Proof.
  intros (d & g & lu & Hc) Hfr (ls & Ha & Hvs)%readArray_inv. simpl in Hc.
  unfold readArray. rewrite (Hfr a (HArray ls)); [|by intros ->; rewrite Hc in Ha|done].
  apply mapM_Some. apply mapM_Some in Hvs.
  eapply Forall2_impl; [exact Hvs|]. intros e v. unfold readItem.
  destruct (h !! e) as [[i| |]|] eqn:E; try done.
  rewrite (Hfr e (HItem i)); [done| |done]. intros ->. by rewrite Hc in E.
Qed.

Lemma readSnapshot_frame (h h' : gmap loc hobj) r snap :
  cache_allocated {| heap := h; requests := [] |} ->
  (forall l o, l <> cached -> h !! l = Some o -> h' !! l = Some o) ->
  r <> cached ->
  readSnapshot h r = Some snap -> readSnapshot h' r = Some snap.
Proof.
  intros Hc Hfr Hr (d & g & Hl & Hd & Hg)%readSnapshot_inv.
  destruct snap as [dv gv lu]. simpl in *.
  apply (readSnapshot_intro _ _ d g).
  - by apply Hfr.
  - by apply (readArray_frame h).
  - by apply (readArray_frame h).
Qed.

Section Updater.
Context `{Host}.

(** A cycle touches the cache object and new objects only. *)
Lemma refresh_frame w st l o :
  cache_allocated st ->
  l <> cached -> heap st !! l = Some o ->
  heap (snd (refreshNewsNow w st)) !! l = Some o.
Proof.
  intros Hc Hl Ho.
  destruct (cycle_total w) as (dv & gitems & gv & Hdv & Hg & Hgv).
  apply finalize_inv in Hdv as (ds & Hds & ->).
  apply finalize_inv in Hgv as (gs & Hgs & ->).
  unfold refreshNewsNow.
  unfold try_catch at 1. unfold bind at 1. rewrite derivative_run.
  unfold bind at 1. rewrite general_run, Hg.
  unfold bind at 1. unfold lift at 1. rewrite Hds.
  unfold bind at 1. unfold lift at 1. rewrite Hgs.
  set (st0 := logged (logged st _) _).
  destruct (finalArray_run (take 4 ds) st0)
    as (d & st1 & Hrun1 & Hsub1 & _ & _ & _).
  unfold bind at 1. rewrite Hrun1.
  unfold bind at 1. unfold update at 1.
  set (st2 := {| heap := alter (set_derivative d) cached (heap st1);
                 requests := requests st1 |}).
  destruct (finalArray_run (take 6 gs) st2)
    as (g & st3 & Hrun3 & Hsub3 & _ & _ & _).
  unfold bind at 1. rewrite Hrun3.
  unfold bind at 1. unfold update. cbn [snd heap].
  rewrite !lookup_alter_ne by done.
  apply (lookup_weaken (heap st2)); [|done].
  subst st2. cbn [heap]. rewrite lookup_alter_ne by done.
  by apply (lookup_weaken (heap st0)).
Qed.

Lemma getCachedNews_reads (st : state) (snap : snapshot) :
  readSnapshot (heap st) cached = Some snap ->
  exists r st1,
    getCachedNews st = (Ok r, st1)
    /\ heap st ⊆ heap st1
    /\ heap st !! r = None
    /\ readSnapshot (heap st1) r = Some snap
    /\ requests st1 = requests st.
Proof.
  intros Hread.
  destruct (readSnapshot_inv _ _ _ Hread) as (d & g & Hc & Hd & Hg).
  eexists _, _. split; [by apply (getCachedNews_run st d g)|].
  assert (Hsub : heap st ⊆ <[fresh (dom (heap st)) := HSnapshot d g (lastUpdated snap)]> (heap st))
    by apply insert_fresh_subseteq.
  split; [done|]. split; [apply fresh_None|]. split; [|done].
  destruct snap as [dv gv lu]. simpl in *. apply (readSnapshot_intro _ _ d g).
  - apply lookup_insert_eq.
  - by apply (readArray_weaken (heap st)).
  - by apply (readArray_weaken (heap st)).
Qed.

(** X5. A cycle replaces the lists, it does not change them in place: an object
    the accessor returned before a cycle still reads, after the cycle, as the
    snapshot it was taken from. *)
Theorem returned_snapshot_survives_refresh
  (w : world) (st : state) (snap : snapshot) :
  readSnapshot (heap st) cached = Some snap ->
  exists r st1,
    getCachedNews st = (Ok r, st1)
    /\ readSnapshot (heap (snd (refreshNewsNow w st1))) r = Some snap.
Proof.
  intros Hread.
  destruct (getCachedNews_reads st snap Hread) as (r & st1 & Hrun & Hsub & Hr & Hr1 & _).
  exists r, st1. split; [done|].
  pose proof (readSnapshot_allocated _ _ Hread) as Hc.
  assert (Hc1 : cache_allocated st1).
  { destruct Hc as (d & g & lu & Hc). exists d, g, lu.
    by apply (lookup_weaken (heap st)). }
  assert (Hrc : r <> cached).
  { intros ->. destruct Hc as (d & g & lu & Hc). by rewrite Hc in Hr. }
  apply (readSnapshot_frame (heap st1)); [done| |done|done].
  intros l o Hl Ho. by apply refresh_frame.
Qed.

(** X6. Reading twice without a cycle in between: two different objects, the
    same snapshot, the cache untouched, no request made. *)
Theorem getCachedNews_twice (st : state) (snap : snapshot) :
  readSnapshot (heap st) cached = Some snap ->
  exists r1 st1 r2 st2,
    getCachedNews st = (Ok r1, st1)
    /\ getCachedNews st1 = (Ok r2, st2)
    /\ r1 <> r2
    /\ readSnapshot (heap st2) r1 = Some snap
    /\ readSnapshot (heap st2) r2 = Some snap
    /\ readSnapshot (heap st2) cached = Some snap
    /\ requests st2 = requests st.
Proof.
  intros Hread.
  destruct (getCachedNews_reads st snap Hread)
    as (r1 & st1 & Hrun1 & Hsub1 & Hf1 & Hr1 & Hq1).
  pose proof (readSnapshot_weaken _ _ _ _ Hsub1 Hread) as Hread1.
  destruct (getCachedNews_reads st1 snap Hread1)
    as (r2 & st2 & Hrun2 & Hsub2 & Hf2 & Hr2 & Hq2).
  exists r1, st1, r2, st2.
  split; [done|]. split; [done|]. split.
  { intros ->. apply readSnapshot_inv in Hr1 as (? & ? & Hl & _).
    by rewrite Hl in Hf2. }
  split; [by apply (readSnapshot_weaken (heap st1))|]. split; [done|].
  split; [by apply (readSnapshot_weaken (heap st1))|]. by rewrite Hq2.
Qed.

Lemma refresh_allocated w st :
  cache_allocated st -> cache_allocated (snd (refreshNewsNow w st)).
Proof.
  intros Hc. destruct (refresh_cycle w st Hc)
    as (dv & gi & gv & st' & _ & _ & _ & R & E & _).
  rewrite R. simpl. by apply (readSnapshot_allocated _ _ E).
Qed.

Lemma setInterval_run ticks st :
  cache_allocated st ->
  exists st',
    setInterval refreshNewsNow ticks st = (Ok tt, st')
    /\ cache_allocated st'
    /\ requests st' = requests st ++ flat_map cycleRequests ticks
    /\ forall w rest, ticks = rest ++ [w] ->
         readSnapshot (heap st') cached
         = readSnapshot (heap (snd (refreshNewsNow w initial))) cached.
Proof.
  revert st. induction ticks as [|w ticks IH]; intros st Hc.
  - exists st. split; [done|]. split; [done|]. split; [by rewrite app_nil_r|].
    intros w rest E. by destruct rest.
  - destruct (refresh_cycle w st Hc)
      as (dv & gi & gv & st1 & Hdv & Hg & Hgv & R & E & Hreq).
    pose proof (readSnapshot_allocated _ _ E) as Hc1.
    destruct (IH st1 Hc1) as (st' & Hrun & Hc' & Hreq' & Hlast).
    exists st'. split; [|split; [done|split]].
    + cbn [setInterval]. unfold bind. by rewrite R.
    + rewrite Hreq', Hreq. cbn [flat_map]. by rewrite <- app_assoc.
    + intros w' rest Ew. destruct rest as [|x rest].
      * destruct ticks; [|by destruct ticks]. injection Ew as <-.
        simpl in Hrun. injection Hrun as <-.
        destruct (refresh_run w initial dv gi gv initial_allocated Hdv Hg Hgv)
          as (si & Ri & Ei & _).
        rewrite Ri. simpl. by rewrite E, Ei.
      * injection Ew as -> ->. by apply (Hlast w' rest).
Qed.

(** X7. The updater never throws, whatever the upstreams answer at the start and
    at each firing of the timer; after it the cache reads as the snapshot of
    the last cycle alone, within the caps; and its requests are those of its
    cycles, in order. *)
Theorem startNewsUpdater_runs (w0 : world) (ticks : list world) (st : state) :
  cache_allocated st ->
  exists st' snap,
    startNewsUpdater w0 ticks st = (Ok tt, st')
    /\ readSnapshot (heap st') cached = Some snap
    /\ readSnapshot (heap (snd (refreshNewsNow (List.last ticks w0) initial))) cached
       = Some snap
    /\ (length (general snap) <= 6)%nat
    /\ (length (derivative snap) <= 4)%nat
    /\ requests st' = requests st ++ flat_map cycleRequests (w0 :: ticks).
Proof.
  intros Hc.
  destruct (setInterval_run (w0 :: ticks) st Hc) as (st' & Hrun & Hc' & Hreq & Hlast).
  destruct (@exists_last _ (w0 :: ticks)) as (rest & w & Ew); [done|].
  pose proof (Hlast w rest Ew) as Hl.
  assert (Hw : List.last ticks w0 = w).
  { transitivity (List.last (w0 :: ticks) w0).
    - by destruct ticks.
    - rewrite Ew. apply last_last. }
  destruct (refresh_cycle w initial initial_allocated)
    as (dv & gi & gv & si & Hdv & _ & Hgv & Ri & Ei & _).
  rewrite Ri in Hl. simpl in Hl.
  exists st', {| derivative := dv; general := gv;
                 lastUpdated := Some (toISOString (clock w)) |}.
  split; [exact Hrun|]. split; [by rewrite Hl|].
  split; [by rewrite Hw, Ri|]. cbn [general derivative].
  split; [by apply (finalize_length 6 gi)|].
  split; [by apply (finalize_length 4 (derivativeItems w))|]. done.
Qed.

End Updater.

Lemma returned_snapshot_survives_refresh_witness :
  exists r st1,
    getCachedNews initial = (Ok r, st1)
    /\ readSnapshot
         (heap (snd (@refreshNewsNow Examples.utc Examples.fallbackOnly st1))) r
       = Some {| derivative := []; general := []; lastUpdated := None |}.
Proof.
  apply (@returned_snapshot_survives_refresh Examples.utc). reflexivity.
Defined.

Lemma getCachedNews_twice_witness :
  exists r1 st1 r2 st2,
    getCachedNews initial = (Ok r1, st1)
    /\ getCachedNews st1 = (Ok r2, st2)
    /\ r1 <> r2.
Proof.
  destruct (getCachedNews_twice initial
              {| derivative := []; general := []; lastUpdated := None |} eq_refl)
    as (r1 & st1 & r2 & st2 & R1 & R2 & Hne & _).
  exists r1, st1, r2, st2. done.
Defined.

Lemma startNewsUpdater_runs_witness :
  exists st' snap,
    @startNewsUpdater Examples.utc Examples.fallbackOnly [Examples.offline] initial
    = (Ok tt, st')
    /\ readSnapshot (heap st') cached = Some snap.
Proof.
  destruct (@startNewsUpdater_runs Examples.utc Examples.fallbackOnly
              [Examples.offline] initial initial_allocated)
    as (st' & snap & R & E & _).
  exists st', snap. done.
Defined.

End UpdaterTheorems.

(** *** Shapes the normalizer meets *)

Module ShapeTheorems.
Import JS Eff App JSFacts NormalizeFacts.

Section Shapes.
Context `{Host}.

(** X8. The list is looked for under the first alias whose value is truthy,
    array or not; without one the payload itself is taken. So a payload that
    is no array, and whose first truthy alias (if any) holds no array, yields
    no records and no error, even when a later alias holds an array. *)
Theorem locateList_first_truthy (obj : value) :
  locateList obj
  = match List.find truthy (map (get_opt obj) listAliases) with
    | Some v => v
    | None => obj
    end
  /\ ((forall l,
        match List.find truthy (map (get_opt obj) listAliases) with
        | Some v => v
        | None => obj
        end <> VArray l) ->
      parseAcesphereList obj = Ok []).
Proof.
  assert (E : locateList obj
              = match List.find truthy (map (get_opt obj) listAliases) with
                | Some v => v
                | None => obj
                end).
  { unfold locateList, listAliases, or_else. cbn [map List.find].
    repeat match goal with
           | |- context [truthy ?v] =>
               lazymatch v with
               | get_opt obj _ => destruct (truthy v) eqn:?
               end
           end; try reflexivity; congruence. }
  split; [exact E|]. rewrite <- E. intros Hno. unfold parseAcesphereList.
  destruct (locateList obj); try done. by destruct (Hno elems).
Qed.

Lemma ToString_array l : ToString (VArray l) = joinFrom true l.
Proof. reflexivity. Qed.

Lemma value_ind_arrays (P : value -> Prop) :
  P VUndefined -> P VNull -> (forall b, P (VBool b)) ->
  (forall n, P (VNumber n)) -> (forall s, P (VString s)) ->
  (forall l, Forall P l -> P (VArray l)) ->
  (forall props, P (VObject props)) ->
  forall v, P v.
Proof.
  intros Hu Hn Hb Hnum Hs Ha Ho. fix IH 1. intros v.
  destruct v as [| |b|n|s|elems|props];
    [exact Hu|exact Hn|apply Hb|apply Hnum|apply Hs| |apply Ho].
  apply Ha. induction elems as [|x elems IHl]; constructor; [apply IH|exact IHl].
Qed.

(** Whatever the code converts to a string throws, if at all, a
    TypeError. *)
Lemma ToString_throws (v : value) (e : exn) :
  ToString v = Throw e -> e = TypeError.
Proof.
  revert e. induction v as [| |b|n|s|l IH|props] using value_ind_arrays;
    intros e; try done.
  - by destruct b.
  - rewrite ToString_array. generalize true. induction IH as [|x l Hx _ IHl];
      intros first; [done|]. cbn [joinFrom].
    assert (Hs : forall e', match x with
                            | VUndefined | VNull => Ok []
                            | _ => ToString x
                            end = Throw e' -> e' = TypeError).
    { intros e'. destruct x; try done; apply Hx. }
    destruct (match x with VUndefined | VNull => Ok [] | _ => ToString x end)
      as [s|e'] eqn:Es; simpl.
    + destruct (joinFrom false l) as [r|e''] eqn:Er; simpl; [done|].
      intros [= <-]. by apply (IHl false).
    + intros [= <-]. by apply Hs.
  - simpl. destruct (has_prop (u "toString") props); [by intros [= <-]|done].
Qed.

Lemma newDate_throws v e : newDate v = Throw e -> e = TypeError.
Proof.
  unfold newDate, ToPrimitive.
  destruct v; cbn [obind]; try done.
  - destruct (ToString (VArray elems)) as [s|e'] eqn:Es; cbn [obind]; [done|].
    intros [= <-]. by apply (ToString_throws (VArray elems)).
  - destruct (ToString (VObject props)) as [s|e'] eqn:Es; cbn [obind]; [done|].
    intros [= <-]. by apply (ToString_throws (VObject props)).
Qed.

Lemma formatDate_throws v e :
  formatDateToDDMMYYYY_HHMM v = Throw e -> e = TypeError.
Proof.
  unfold formatDateToDDMMYYYY_HHMM. destruct (truthy v); [|done].
  destruct (newDate v) as [[t|]|e'] eqn:Ed; simpl; try done.
  intros [= <-]. by apply (newDate_throws v).
Qed.

Lemma get_throws v k e : get v k = Throw e -> e = TypeError.
Proof. destruct v; simpl; try done; by intros [= <-]. Qed.

Lemma orM_throws a b e :
  (forall e', a = Throw e' -> e' = TypeError) ->
  (forall e', b = Throw e' -> e' = TypeError) ->
  orM a b = Throw e -> e = TypeError.
Proof.
  intros Ha Hb. unfold orM. destruct a as [x|e']; simpl.
  - destruct (truthy x); [done|]. apply Hb.
  - intros [= <-]. by apply Ha.
Qed.

Ltac chain_throws :=
  intros ?; first [apply get_throws | discriminate | apply orM_throws; chain_throws].

Lemma extractDate_throws item e : extractDate item = Throw e -> e = TypeError.
Proof. revert e. unfold extractDate. chain_throws. Qed.

Lemma extractHeadline_throws item e :
  extractHeadline item = Throw e -> e = TypeError.
Proof. revert e. unfold extractHeadline. chain_throws. Qed.

Lemma normalizeItem_throws item e : normalizeItem item = Throw e -> e = TypeError.
Proof.
  unfold normalizeItem.
  destruct (extractDate item) as [dv|e1] eqn:E1; simpl;
    [|intros [= <-]; by apply (extractDate_throws item)].
  destruct (extractHeadline item) as [hv|e2] eqn:E2; simpl;
    [|intros [= <-]; by apply (extractHeadline_throws item)].
  destruct (ToString hv) as [s|e3] eqn:E3; simpl;
    [|intros [= <-]; by apply (ToString_throws hv)].
  destruct (formatDateToDDMMYYYY_HHMM dv) as [d|e4] eqn:E4; simpl; [done|].
  intros [= <-]. by apply (formatDate_throws dv).
Qed.

Lemma Array_map_throws {A B} (f : A -> outcome B) l e :
  Array_map f l = Throw e -> exists a, a ∈ l /\ f a = Throw e.
Proof.
  induction l as [|a l IH]; simpl; [done|].
  destruct (f a) as [b|e'] eqn:Ea; simpl.
  - destruct (Array_map f l) as [r|e'']; simpl; [done|].
    intros [= <-]. destruct (IH eq_refl) as (x & Hx & Hfx).
    exists x. split; [by right|done].
  - intros [= <-]. exists a. split; [by left|done].
Qed.

(** X9. One [null] (or absent) element fails the whole batch: reading its
    properties throws a TypeError, and so does the normalizer, whatever the
    other elements are. No other exception leaves the normalizer. *)
Theorem parseAcesphereList_null_element (obj : value) (l : list value) :
  locateList obj = VArray l ->
  (VNull ∈ l \/ VUndefined ∈ l -> parseAcesphereList obj = Throw TypeError)
  /\ (forall e, parseAcesphereList obj = Throw e -> e = TypeError).
Proof.
  intros Hl.
  assert (Hthrow : forall e, parseAcesphereList obj = Throw e -> e = TypeError).
  { intros e. unfold parseAcesphereList. rewrite Hl.
    destruct (Array_map normalizeItem l) as [out|e'] eqn:Em; simpl; [done|].
    intros [= <-]. apply Array_map_throws in Em as (a & _ & Ha).
    by apply (normalizeItem_throws a). }
  split; [|exact Hthrow]. intros Hnull.
  destruct (parseAcesphereList obj) as [out|e] eqn:Ep.
  - exfalso. unfold parseAcesphereList in Ep. rewrite Hl in Ep.
    destruct (Array_map normalizeItem l) as [mapped|] eqn:Em; [|done].
    apply Array_map_Forall2 in Em.
    destruct Hnull as [Hn|Hn];
      destruct (Forall2_elem_l _ _ _ _ Em Hn) as (r & _ & Hr); done.
  - by rewrite (Hthrow e eq_refl).
Qed.

Lemma lookup_prop_primitive k props :
  forallb (fun kv => isPrimitive (snd kv)) props = true ->
  isPrimitive (lookup_prop k props) = true.
Proof.
  induction props as [|[k' v] props IH]; simpl; [done|].
  intros [Hv Hp]%andb_prop. destruct (str_eqb k k'); [done|by apply IH].
Qed.

Lemma get_flat item k :
  isFlatRecord item = true ->
  exists v, get item k = Ok v /\ isPrimitive v = true.
Proof.
  destruct item; simpl; try done. intros Hp.
  eexists. split; [done|]. by apply lookup_prop_primitive.
Qed.

Lemma orM_primitive a b :
  (exists v, a = Ok v /\ isPrimitive v = true) ->
  (exists v, b = Ok v /\ isPrimitive v = true) ->
  exists v, orM a b = Ok v /\ isPrimitive v = true.
Proof.
  intros (x & -> & Hx) (y & -> & Hy). unfold orM. simpl.
  destruct (truthy x); eauto.
Qed.

Ltac chain_primitive Hf :=
  first [ by apply get_flat
        | by (eexists; split; [reflexivity|])
        | apply orM_primitive; chain_primitive Hf ].

Lemma normalizeItem_flat item :
  isFlatRecord item = true -> exists r, normalizeItem item = Ok r.
Proof.
  intros Hf. unfold normalizeItem.
  assert (Hd : exists v, extractDate item = Ok v /\ isPrimitive v = true)
    by (unfold extractDate; chain_primitive Hf).
  assert (Hh : exists v, extractHeadline item = Ok v /\ isPrimitive v = true)
    by (unfold extractHeadline; chain_primitive Hf).
  destruct Hd as (dv & -> & Hdv). destruct Hh as (hv & -> & Hhv). simpl.
  assert (Hs : exists s, ToString hv = Ok s).
  { destruct hv as [| |[]| | | |]; simpl; try done; eauto. }
  destruct Hs as [s ->]. simpl.
  assert (Hfd : exists d, formatDateToDDMMYYYY_HHMM dv = Ok d).
  { unfold formatDateToDDMMYYYY_HHMM. destruct (truthy dv); [|eauto].
    assert (Hn : exists o, newDate dv = Ok o).
    { destruct dv; try done; unfold newDate; simpl; eauto. }
    destruct Hn as [[t|] ->]; simpl; eauto. }
  destruct Hfd as [d ->]. simpl. eauto.
Qed.

(** X10. A list of flat records (objects whose property values are strings,
    numbers, booleans or null) never makes the normalizer throw: it returns
    the records of the items, in the order of the list, without those whose
    headline is empty, so never more records than items. *)
Theorem parseAcesphereList_flat_records (obj : value) (l : list value) :
  locateList obj = VArray l ->
  Forall (fun i => isFlatRecord i = true) l ->
  exists mapped,
    Forall2 (fun i r => normalizeItem i = Ok r) l mapped
    /\ parseAcesphereList obj
       = Ok (List.filter (fun r => negb (str_eqb (Raw.headline r) [])) mapped)
    /\ (length (List.filter (fun r => negb (str_eqb (Raw.headline r) [])) mapped)
        <= length l)%nat.
Proof.
  intros Hl Hflat.
  assert (Hm : exists mapped, Forall2 (fun i r => normalizeItem i = Ok r) l mapped).
  { clear Hl. induction Hflat as [|i l Hi _ IH]; [by exists []|].
    destruct IH as [mapped IH]. destruct (normalizeItem_flat i Hi) as [r Hr].
    exists (r :: mapped). by constructor. }
  destruct Hm as [mapped Hm]. exists mapped. split; [done|].
  pose proof (Forall2_length _ _ _ Hm) as Hlen. split.
  - unfold parseAcesphereList. rewrite Hl.
    apply Array_map_Forall2 in Hm. rewrite Hm. simpl. f_equal.
    apply filter_ext. intros r. simpl.
    destruct (str_eqb (Raw.headline r) []) eqn:E; [done|]. simpl.
    apply str_eqb_false in E. apply Nat.ltb_lt.
    destruct (Raw.headline r); [done|simpl; lia].
  - rewrite Hlen. apply filter_length_le.
Qed.

End Shapes.

Lemma parseAcesphereList_flat_records_witness :
  exists mapped,
    Forall2 (fun i r => @normalizeItem Examples.utc i = Ok r)
      [VObject [(u "Headline", VString (u " Nifty up "))];
       VObject [(u "Title", VString (u "  "))]] mapped
    /\ @parseAcesphereList Examples.utc
         (VObject
            [(u "Data",
              VArray [VObject [(u "Headline", VString (u " Nifty up "))];
                      VObject [(u "Title", VString (u "  "))]])])
       = Ok (List.filter (fun r => negb (str_eqb (Raw.headline r) [])) mapped).
Proof.
  assert (Hflat : Forall (fun i => isFlatRecord i = true)
                    [VObject [(u "Headline", VString (u " Nifty up "))];
                     VObject [(u "Title", VString (u "  "))]])
    by (repeat constructor).
  destruct (@parseAcesphereList_flat_records Examples.utc
              (VObject
                 [(u "Data",
                   VArray [VObject [(u "Headline", VString (u " Nifty up "))];
                           VObject [(u "Title", VString (u "  "))]])])
              _ eq_refl Hflat)
    as (mapped & Hm & Hp & _).
  exists mapped. done.
Defined.

Lemma parseAcesphereList_null_element_witness :
  @parseAcesphereList Examples.utc
    (VArray [VObject [(u "Title", VString (u "A"))]; VNull])
  = Throw TypeError.
Proof.
  apply (@parseAcesphereList_null_element Examples.utc _
           [VObject [(u "Title", VString (u "A"))]; VNull]).
  - reflexivity.
  - left. right. left.
Defined.

End ShapeTheorems.

(** *** More on the ordering *)

Module OrderTheorems.
Import JS Eff App JSFacts SortFacts NormalizeFacts RefreshFacts.

(** A list whose neighbours already compare as in order is returned as it
    is. *)
Lemma Array_sort_adjacent {A} (cmp : A -> A -> outcome Z) (l : list A) :
  (forall i x y, l !! i = Some x -> l !! S i = Some y ->
                 exists c, cmp x y = Ok c /\ c <= 0) ->
  Array_sort cmp l = Ok l.
Proof.
  induction l as [|x l IH]; intros Hadj; [done|].
  cbn [Array_sort]. rewrite IH.
  - simpl. destruct l as [|y l]; [done|]. simpl.
    destruct (Hadj O x y eq_refl eq_refl) as (c & -> & Hc). simpl.
    destruct (Z.leb_spec c 0); [done|lia].
  - intros i a b Ha Hb. by apply (Hadj (S i)).
Qed.

Section Ordering.
Context `{Host}.

(** X11. The code assumes the upstream list is newest first: when every record
    has a valid raw date and the list is in descending date order, the
    ordering returns it unchanged, records of equal date included. *)
Theorem sortByDateDesc_keeps_newest_first (arr : list Raw.t) :
  Forall (fun r => hasValidDate r = true) arr ->
  StronglySorted (fun a b => timeOf b <= timeOf a) arr ->
  sortByDateDesc arr = Ok arr.
Proof.
  intros Hv Hs. unfold sortByDateDesc.
  assert (Ht : Forall (fun r => truthy (Raw.dateRaw r) = true) arr).
  { eapply Forall_impl; [exact Hv|]. simpl. by intros r [? _]%hasValidDate_inv. }
  rewrite (filter_all _ _ Ht). rewrite filter_none.
  2:{ eapply Forall_impl; [exact Ht|]. simpl. by intros r ->. }
  rewrite Array_sort_adjacent; [simpl; by rewrite app_nil_r|].
  intros i x y Hx Hy. rewrite Forall_forall in Hv.
  destruct (hasValidDate_inv x) as [_ Hdx].
  { apply Hv. by apply list_elem_of_lookup_2 in Hx. }
  destruct (hasValidDate_inv y) as [_ Hdy].
  { apply Hv. by apply list_elem_of_lookup_2 in Hy. }
  exists (timeOf y - timeOf x). unfold byDateDesc. rewrite Hdy, Hdx.
  split; [done|].
  assert (timeOf y <= timeOf x); [|lia].
  clear -Hs Hx Hy. revert i Hx Hy. induction Hs as [|a l Hs IH Ha]; intros i Hx Hy.
  - done.
  - destruct i as [|i].
    + injection Hx as ->. rewrite Forall_forall in Ha. apply Ha.
      simpl in Hy. by apply list_elem_of_lookup_2 in Hy.
    + by apply (IH i).
Qed.

(** X12. When no truthy raw date is a valid date (free text, say), the
    comparator reads NaN for every pair and nothing is put in date order: the
    records with a raw date come first, the others after, each group in the
    order the upstream gave. *)
Theorem sortByDateDesc_unparseable_dates (arr : list Raw.t) :
  Forall (fun r => truthy (Raw.dateRaw r) = true ->
                   newDate (Raw.dateRaw r) = Ok None) arr ->
  sortByDateDesc arr
  = Ok (List.filter (fun r => truthy (Raw.dateRaw r)) arr
        ++ List.filter (fun r => negb (truthy (Raw.dateRaw r))) arr).
Proof.
  intros Hinv. unfold sortByDateDesc.
  rewrite Array_sort_adjacent; [done|].
  intros i x y Hx Hy. exists 0. split; [|done].
  apply list_elem_of_lookup_2, list_elem_of_In, filter_In in Hx as [Hx Htx].
  apply list_elem_of_lookup_2, list_elem_of_In, filter_In in Hy as [Hy Hty].
  rewrite Forall_forall in Hinv.
  unfold byDateDesc.
  rewrite (Hinv y) by (by apply list_elem_of_In || done).
  rewrite (Hinv x) by (by apply list_elem_of_In || done). done.
Qed.

End Ordering.

Lemma sortByDateDesc_keeps_newest_first_witness :
  @sortByDateDesc Examples.utc
    [{| Raw.headline := u "B";
        Raw.dateRaw := VString (u "2024-01-03T09:00:00Z");
        Raw.date := u "03-01-2024 09:00" |};
     {| Raw.headline := u "A";
        Raw.dateRaw := VString (u "2024-01-02T15:04:00Z");
        Raw.date := u "02-01-2024 15:04" |}]
  = Ok [{| Raw.headline := u "B";
           Raw.dateRaw := VString (u "2024-01-03T09:00:00Z");
           Raw.date := u "03-01-2024 09:00" |};
        {| Raw.headline := u "A";
           Raw.dateRaw := VString (u "2024-01-02T15:04:00Z");
           Raw.date := u "02-01-2024 15:04" |}].
Proof.
  apply (@sortByDateDesc_keeps_newest_first Examples.utc).
  - repeat constructor.
  - repeat constructor; vm_compute; discriminate.
Defined.

Lemma sortByDateDesc_unparseable_dates_witness :
  @sortByDateDesc Examples.utc
    [{| Raw.headline := u "A"; Raw.dateRaw := VNull; Raw.date := [] |};
     {| Raw.headline := u "B"; Raw.dateRaw := VString (u "today"); Raw.date := [] |};
     {| Raw.headline := u "C"; Raw.dateRaw := VString (u "yesterday"); Raw.date := [] |}]
  = Ok [{| Raw.headline := u "B"; Raw.dateRaw := VString (u "today"); Raw.date := [] |};
        {| Raw.headline := u "C"; Raw.dateRaw := VString (u "yesterday"); Raw.date := [] |};
        {| Raw.headline := u "A"; Raw.dateRaw := VNull; Raw.date := [] |}].
Proof.
  apply (@sortByDateDesc_unparseable_dates Examples.utc).
  repeat constructor; vm_compute; discriminate.
Defined.

End OrderTheorems.

(** *** More on the endpoint *)

Module EndpointTheorems.
Import JS Eff Server JSFacts NormalizeFacts ServerTheorems.

Lemma trimStart_snoc_space s :
  trimStart (s ++ [32%N])
  = match trimStart s with
    | [] => []
    | x => x ++ [32%N]
    end.
Proof.
  induction s as [|c s IH]; [done|]. simpl.
  destruct (isTrimSpace c); [exact IH|done].
Qed.

Lemma trim_snoc_space s : trim (s ++ [32%N]) = trim s.
Proof.
  unfold trim. rewrite trimStart_snoc_space.
  destruct (trimStart s) as [|c r]; [done|].
  unfold trimEnd. by rewrite rev_app_distr.
Qed.

Lemma matchHere_literal_head c pat s :
  pat <> [] -> (forall p, head pat = Some p -> p <> c) ->
  matchHere (literal pat) (c :: s) = None.
Proof.
  destruct pat as [|p pat]; [done|]. intros _ Hp. simpl.
  unfold chr. destruct (N.eqb_spec c p) as [->|]; [|done].
  by destruct (Hp p eq_refl).
Qed.

Lemma replaceAll_no_head pat by_ s t :
  pat <> [] -> (forall p, head pat = Some p -> p ∉ s) ->
  replaceAll (literal pat) by_ 0 (s ++ t)
  = s ++ replaceAll (literal pat) by_ 0 t.
Proof.
  intros Hne Hp. induction s as [|c s IH]; [done|].
  cbn [app replaceAll]. rewrite matchHere_literal_head; [|done|].
  - rewrite IH; [done|]. intros p Hh Hin. apply (Hp p Hh). by right.
  - intros p Hh ->. apply (Hp c Hh). by left.
Qed.

Lemma replaceFirst_no_head pat by_ s t :
  (forall p, head pat = Some p -> p ∉ s) -> pat <> [] ->
  replaceFirst pat by_ (s ++ t) = s ++ replaceFirst pat by_ t.
Proof.
  intros Hp Hne. induction s as [|c s IH]; [done|].
  cbn [app replaceFirst].
  assert (Hs : startsWith pat (c :: s ++ t) = false).
  { destruct pat as [|p pat]; [done|]. simpl.
    destruct (N.eqb_spec p c) as [->|]; [|done].
    exfalso. apply (Hp c eq_refl). by left. }
  rewrite Hs, IH; [done|]. intros p Hh Hin. apply (Hp p Hh). by right.
Qed.

(** X13. The decoration of the upstream's dates is removed: a date text followed
    by the entity [&nbsp;] and the suffix [Hrs IST] is cleaned to the date
    text itself, trimmed (the text holding no [&] and no [H]). *)
Theorem formatDate_strips_decoration (s : jsstring) :
  38%N ∉ s -> 72%N ∉ s ->
  formatDate (s ++ u "&nbsp;Hrs IST") = trim s
  /\ formatDate (s ++ u " Hrs IST") = trim s
  /\ formatDate s = trim s.
Proof.
  intros Hamp HH. unfold formatDate.
  assert (Ha : forall p, head (u "&nbsp;") = Some p -> p ∉ s)
    by (by intros p [= <-]).
  assert (Hh : forall p, head (u "Hrs IST") = Some p -> p ∉ s)
    by (by intros p [= <-]).
  rewrite !(replaceAll_no_head (u "&nbsp;") _ s) by done.
  replace (replaceAll (literal (u "&nbsp;")) (u " ") 0 (u "&nbsp;Hrs IST"))
    with (u " Hrs IST") by (by vm_compute).
  replace (replaceAll (literal (u "&nbsp;")) (u " ") 0 (u " Hrs IST"))
    with (u " Hrs IST") by (by vm_compute).
  rewrite (replaceFirst_no_head (u "Hrs IST") [] s (u " Hrs IST")) by done.
  replace (replaceFirst (u "Hrs IST") [] (u " Hrs IST")) with [32%N]
    by (by vm_compute).
  split; [apply trim_snoc_space|]. split; [apply trim_snoc_space|].
  pose proof (replaceAll_no_head (u "&nbsp;") (u " ") s [] ltac:(done) Ha) as E1.
  rewrite app_nil_r in E1. rewrite E1. simpl (replaceAll _ _ _ []).
  pose proof (replaceFirst_no_head (u "Hrs IST") [] s [] Hh ltac:(done)) as E2.
  rewrite !app_nil_r in *. by rewrite E2.
Qed.

Section Endpoint.
Context `{Host}.

(** X14. The date text is tested before it is cleaned: a matched container with a
    headline whose date text is nothing but the suffix [Hrs IST] passes the
    test, and its record, with an empty date, is in the output. *)
Theorem parseHtmlNews_empty_date_record (html : jsstring) (el : node) :
  el ∈ select (u "GrNewsMainCont") (cheerio_load html) ->
  headlineText el <> [] ->
  dateText el = u "Hrs IST" ->
  {| date := []; headline := headlineText el |} ∈ parseHtmlNews html.
Proof.
  intros Hel Hh Hd.
  assert (Hp : parseHtmlNews html
               = map recordOf
                   (List.filter bothPresent
                      (select (u "GrNewsMainCont") (cheerio_load html)))).
  { unfold parseHtmlNews. by rewrite fold_eachContainer. }
  rewrite Hp. apply list_elem_of_fmap. exists el. split.
  - unfold recordOf. rewrite Hd. by vm_compute.
  - apply list_elem_of_In, filter_In. split; [by apply list_elem_of_In|].
    apply bothPresent_iff. by rewrite Hd.
Qed.

(** X15. A successful fetch replaces both lists at once and stamps the time; from
    then on, any request whose clock is less than the TTL (60 s) later is
    answered with the same body, makes no upstream request and changes
    nothing, whatever the upstreams would answer. *)
Theorem getNews_serves_cache_within_ttl
  (w : world) (st : state) (g d : jsstring) :
  CACHE_TTL <= clock w - lastFetched st ->
  axios w NB_GENERAL = Some g ->
  axios w NB_DERIVATIVE = Some d ->
  exists st',
    getNews w st
    = (Ok {| general := parseHtmlNews g; derivative := parseHtmlNews d |}, st')
    /\ cachedNews st'
       = {| general := parseHtmlNews g; derivative := parseHtmlNews d |}
    /\ lastFetched st' = clock w
    /\ requests st' = requests st ++ [NB_GENERAL; NB_DERIVATIVE]
    /\ forall w2,
         clock w2 - clock w < CACHE_TTL ->
         getNews w2 st'
         = (Ok {| general := parseHtmlNews g; derivative := parseHtmlNews d |},
            st').
Proof.
  intros Httl Hg Hd.
  eexists. split; [|split; [|split; [|split]]].
  - unfold getNews.
    destruct (Z.ltb_spec (clock w - lastFetched st) CACHE_TTL); [lia|].
    unfold try_catch, bind, Promise_all2, fetchNews, set_cache, res_json.
    rewrite Hg, Hd. cbn [fst snd cachedNews requests lastFetched].
    rewrite <- app_assoc. reflexivity.
  - done.
  - done.
  - done.
  - intros w2 Hw. unfold getNews. cbn [lastFetched].
    destruct (Z.ltb_spec (clock w2 - clock w) CACHE_TTL); [|lia]. done.
Qed.

End Endpoint.

Lemma formatDate_strips_decoration_witness :
  formatDate (u "02 Jan 2024 15:04" ++ u "&nbsp;Hrs IST")
  = trim (u "02 Jan 2024 15:04").
Proof.
  apply (formatDate_strips_decoration (u "02 Jan 2024 15:04"));
    vm_compute; intros Hin;
    repeat (apply elem_of_cons in Hin as [Hin|Hin]; [discriminate|]);
    by apply elem_of_nil in Hin.
Defined.

Lemma getNews_serves_cache_within_ttl_witness :
  exists st',
    @getNews Examples.utc Examples.serverUp initial
    = (Ok {| general := @parseHtmlNews Examples.utc (u "<div>...</div>");
             derivative := @parseHtmlNews Examples.utc (u "<div>...</div>") |},
       st')
    /\ lastFetched st' = clock Examples.serverUp.
Proof.
  destruct (@getNews_serves_cache_within_ttl Examples.utc Examples.serverUp
              initial (u "<div>...</div>") (u "<div>...</div>"))
    as (st' & R & _ & L & _).
  - vm_compute. discriminate.
  - reflexivity.
  - reflexivity.
  - exists st'. done.
Defined.

Lemma parseHtmlNews_empty_date_record_witness :
  {| date := []; headline := u "Rupee opens flat" |}
  ∈ @parseHtmlNews
      {| JSON_parse := fun _ => None;
         Number_toString := Examples.printNumber;
         LocalTZA := fun _ _ => 0;
         Date_parse_legacy := fun _ => None;
         cheerio_load := fun _ =>
           [Element (u "div") [u "GrNewsMainCont"]
              [Element (u "span") [u "GrNewsHead"] [Text (u "Rupee opens flat")];
               Element (u "span") [u "GrNewsDate"] [Text (u " Hrs IST ")]]] |}
      (u "<div>...</div>").
Proof.
  apply (@parseHtmlNews_empty_date_record _ _
           (Element (u "div") [u "GrNewsMainCont"]
              [Element (u "span") [u "GrNewsHead"] [Text (u "Rupee opens flat")];
               Element (u "span") [u "GrNewsDate"] [Text (u " Hrs IST ")]])).
  - vm_compute. by left.
  - vm_compute. discriminate.
  - vm_compute. reflexivity.
Defined.

End EndpointTheorems.



(** *** The patterns *)

Module PatternTheorems.
Import JS Eff App JSFacts NormalizeFacts FallbackFacts.

Lemma matchHere_star p r s :
  matchHere (Star p :: r) s
  = match s with
    | c :: s' =>
        if p c then
          match matchHere (Star p :: r) s' with
          | Some (cap, n) => Some (cap, S n)
          | None => matchHere r s
          end
        else matchHere r s
    | [] => matchHere r []
    end.
Proof. by destruct s. Qed.

Lemma matchHere_plus p r s :
  matchHere (Plus p :: r) s
  = match s with
    | c :: s' =>
        if p c then '(cap, n) ← matchHere (Star p :: r) s'; Some (cap, S n)
        else None
    | [] => None
    end.
Proof. by destruct s. Qed.

Lemma matchHere_lazy p r s :
  matchHere (LazyCapture p :: r) s
  = match matchHere r s with
    | Some (_, n) => Some ([], n)
    | None =>
        match s with
        | c :: s' =>
            if p c then
              '(cap, n) ← matchHere (LazyCapture p :: r) s'; Some (c :: cap, S n)
            else None
        | [] => None
        end
    end.
Proof. by destruct s. Qed.

Lemma Matches_star_inv p r s cap :
  Matches (Star p :: r) s cap ->
  exists run s', s = run ++ s' /\ Forall (fun c => p c = true) run
                 /\ Matches r s' cap.
Proof. inversion 1; subst. eauto. Qed.

Lemma Matches_lazy_inv p r s cap :
  Matches (LazyCapture p :: r) s cap ->
  exists s' cap', s = cap ++ s' /\ Forall (fun c => p c = true) cap
                  /\ Matches r s' cap'.
Proof. inversion 1; subst. eauto. Qed.

Lemma Matches_star_cons p r c s cap :
  p c = true -> Matches (Star p :: r) s cap ->
  Matches (Star p :: r) (c :: s) cap.
Proof.
  intros Hc (run & s' & -> & Hrun & Hm)%Matches_star_inv.
  apply (Matches_star p r (c :: run)); [by constructor|done].
Qed.

Lemma Matches_lazy_cons p r c s cap :
  p c = true -> Matches (LazyCapture p :: r) s cap ->
  Matches (LazyCapture p :: r) (c :: s) (c :: cap).
Proof.
  intros Hc (s' & cap' & -> & Hrun & Hm)%Matches_lazy_inv.
  apply (Matches_lazy p r (c :: cap) s' cap'); [by constructor|done].
Qed.

Lemma Matches_plus_of_star p r c s cap :
  p c = true -> Matches (Star p :: r) s cap ->
  Matches (Plus p :: r) (c :: s) cap.
Proof.
  intros Hc (run & s' & -> & Hrun & Hm)%Matches_star_inv. by constructor.
Qed.

(** The matcher is sound: what it reports as a match of [n] units with a
    capture is one. *)
Lemma matchHere_sound r s cap n :
  matchHere r s = Some (cap, n) ->
  (n <= length s)%nat /\ Matches r (take n s) cap.
Proof.
  revert s cap n. induction r as [|a r IH]; intros s cap n.
  - simpl. intros [= <- <-]. split; [lia|]. rewrite take_0. constructor.
  - destruct a as [p|p|p|p].
    + destruct s as [|c s]; simpl; [done|].
      destruct (p c) eqn:Ep; [|done].
      destruct (matchHere r s) as [[cap' n']|] eqn:Em; simpl; [|done].
      intros [= <- <-]. destruct (IH _ _ _ Em) as [Hn Hm].
      split; [simpl; lia|]. simpl. by constructor.
    + revert cap n. induction s as [|c s IHs]; intros cap n;
        rewrite matchHere_star.
      * intros Hm%IH. destruct Hm as [Hn Hm]. split; [done|].
        by apply (Matches_star p r []).
      * assert (Hskip : matchHere r (c :: s) = Some (cap, n) ->
                  (n <= length (c :: s))%nat
                  /\ Matches (Star p :: r) (take n (c :: s)) cap).
        { intros Hm%IH. destruct Hm as [Hn Hm]. split; [done|].
          by apply (Matches_star p r []). }
        destruct (p c) eqn:Ep; [|exact Hskip].
        destruct (matchHere (Star p :: r) s) as [[cap' n']|] eqn:Em;
          [|exact Hskip].
        intros [= <- <-]. destruct (IHs _ _ eq_refl) as [Hn Hm].
        split; [simpl; lia|]. simpl. by apply Matches_star_cons.
    + rewrite matchHere_plus. destruct s as [|c s]; [done|].
      destruct (p c) eqn:Ep; [|done].
      destruct (matchHere (Star p :: r) s) as [[cap' n']|] eqn:Em; simpl; [|done].
      intros [= <- <-].
      assert (Hstar : (n' <= length s)%nat /\ Matches (Star p :: r) (take n' s) cap').
      { clear Ep. revert cap' n' Em. induction s as [|c' s IHs]; intros cap' n';
          rewrite matchHere_star.
        - intros Hm%IH. destruct Hm as [Hn Hm]. split; [done|].
          by apply (Matches_star p r []).
        - assert (Hskip : matchHere r (c' :: s) = Some (cap', n') ->
                    (n' <= length (c' :: s))%nat
                    /\ Matches (Star p :: r) (take n' (c' :: s)) cap').
          { intros Hm%IH. destruct Hm as [Hn Hm]. split; [done|].
            by apply (Matches_star p r []). }
          destruct (p c') eqn:Ep'; [|exact Hskip].
          destruct (matchHere (Star p :: r) s) as [[cap'' n'']|] eqn:Em';
            [|exact Hskip].
          intros [= <- <-]. destruct (IHs _ _ eq_refl) as [Hn Hm].
          split; [simpl; lia|]. simpl. by apply Matches_star_cons. }
      destruct Hstar as [Hn Hm]. split; [simpl; lia|]. simpl.
      by apply Matches_plus_of_star.
    + revert cap n. induction s as [|c s IHs]; intros cap n;
        rewrite matchHere_lazy.
      * destruct (matchHere r []) as [[cap' n']|] eqn:Em; [|done].
        intros [= <- <-]. destruct (IH _ _ _ Em) as [Hn Hm].
        split; [done|]. by apply (Matches_lazy p r [] _ cap').
      * destruct (matchHere r (c :: s)) as [[cap' n']|] eqn:Em.
        { intros [= <- <-]. destruct (IH _ _ _ Em) as [Hn Hm].
          split; [done|]. by apply (Matches_lazy p r [] _ cap'). }
        destruct (p c) eqn:Ep; [|done].
        destruct (matchHere (LazyCapture p :: r) s) as [[cap' n']|] eqn:El;
          simpl; [|done].
        intros [= <- <-]. destruct (IHs _ _ eq_refl) as [Hn Hm].
        split; [simpl; lia|]. simpl. by apply Matches_lazy_cons.
Qed.

(** Every capture of a global search was matched somewhere in the text. *)
Lemma matchAll_sound r skip s m :
  m ∈ matchAll r skip s ->
  exists pre matched post,
    s = pre ++ matched ++ post /\ Matches r matched m.
Proof.
  revert skip. induction s as [|c s IH]; intros skip; simpl.
  - by intros ?%elem_of_nil.
  - assert (Hrec : forall k, m ∈ matchAll r k s ->
              exists pre matched post,
                c :: s = pre ++ matched ++ post /\ Matches r matched m).
    { intros k (pre & matched & post & -> & Hm)%IH.
      exists (c :: pre), matched, post. done. }
    destruct skip as [|k]; [|apply Hrec].
    destruct (matchHere r (c :: s)) as [[cap n]|] eqn:Em; [|apply Hrec].
    intros [->|Hin]%elem_of_cons; [|by apply (Hrec (n - 1)%nat)].
    destruct (matchHere_sound _ _ _ _ Em) as [Hn Hm].
    exists [], (take n (c :: s)), (drop n (c :: s)).
    split; [|done]. by rewrite app_nil_l, take_drop.
Qed.

Lemma Matches_one_inv p r s cap :
  Matches (One p :: r) s cap ->
  exists c s', s = c :: s' /\ p c = true /\ Matches r s' cap.
Proof. inversion 1; subst. eauto. Qed.

Lemma Matches_nil_inv s cap : Matches [] s cap -> s = [] /\ cap = [].
Proof. by inversion 1. Qed.

Lemma chr_true c x : chr c x = true -> x = c.
Proof. unfold chr. by intros ?%N.eqb_eq. Qed.

Lemma Forall_notChr c l :
  Forall (fun x => notChr c x = true) l -> Forall (fun x => x <> c) l.
Proof.
  intros HF. apply (Forall_impl _ _ _ HF). intros x. unfold notChr.
  by intros ?%negb_true_iff%N.eqb_neq.
Qed.

Lemma Forall_negb (p : N -> bool) l :
  Forall (fun x => negb (p x) = true) l -> Forall (fun x => p x = false) l.
Proof.
  intros HF. apply (Forall_impl _ _ _ HF). intros x. by intros ?%negb_true_iff.
Qed.

(** What the anchor pattern matches is an anchor with an [href]. *)
Lemma anchorRe_matches matched m : Matches anchorRe matched m -> anchorWith matched m.
Proof.
  unfold anchorRe. intros Hm.
  apply Matches_one_inv in Hm as (c0 & s0 & -> & ->%chr_true & Hm).
  apply Matches_one_inv in Hm as (a1 & s1 & -> & Ha1 & Hm).
  apply Matches_star_inv in Hm as (run1 & s2 & -> & Hrun1%Forall_notChr & Hm).
  apply Matches_one_inv in Hm as (h & s3 & -> & Hh & Hm).
  apply Matches_one_inv in Hm as (r & s4 & -> & Hr & Hm).
  apply Matches_one_inv in Hm as (e & s5 & -> & He & Hm).
  apply Matches_one_inv in Hm as (f & s6 & -> & Hf & Hm).
  apply Matches_one_inv in Hm as (c1 & s7 & -> & ->%chr_true & Hm).
  apply Matches_one_inv in Hm as (q1 & s8 & -> & Hq1 & Hm).
  apply Matches_star_inv in Hm as (run2 & s9 & -> & Hrun2%Forall_negb & Hm).
  apply Matches_one_inv in Hm as (q2 & s10 & -> & Hq2 & Hm).
  apply Matches_star_inv in Hm as (run3 & s11 & -> & Hrun3%Forall_notChr & Hm).
  apply Matches_one_inv in Hm as (c2 & s12 & -> & ->%chr_true & Hm).
  apply Matches_lazy_inv in Hm as (s13 & cap' & -> & Hcap%Forall_negb & Hm).
  apply Matches_one_inv in Hm as (c3 & s14 & -> & ->%chr_true & Hm).
  apply Matches_one_inv in Hm as (c4 & s15 & -> & ->%chr_true & Hm).
  apply Matches_one_inv in Hm as (a2 & s16 & -> & Ha2 & Hm).
  apply Matches_one_inv in Hm as (c5 & s17 & -> & ->%chr_true & Hm).
  apply Matches_nil_inv in Hm as [-> _].
  exists a1, run1, h, r, e, f, q1, run2, q2, run3, a2.
  split; [reflexivity|by repeat split].
Qed.

Lemma replaceAll_delete_Forall (P : N -> Prop) r k s :
  Forall P s -> Forall P (replaceAll r [] k s).
Proof.
  intros Hs. revert k. induction Hs as [|c s Hc _ IH]; intros k; simpl; [done|].
  destruct k; [|apply IH].
  destruct (matchHere r (c :: s)) as [[cap n]|]; [apply IH|].
  constructor; [done|apply IH].
Qed.

Lemma trimStart_Forall (P : N -> Prop) s : Forall P s -> Forall P (trimStart s).
Proof.
  induction 1 as [|c s Hc Hs IH]; simpl; [done|].
  destruct (isTrimSpace c); [done|by constructor].
Qed.

Lemma trim_Forall (P : N -> Prop) s : Forall P s -> Forall P (trim s).
Proof.
  intros Hs. unfold trim, trimEnd.
  apply Forall_rev, trimStart_Forall, Forall_rev. by apply trimStart_Forall.
Qed.

Section Anchors.
Context `{Host}.

(** X16. Every headline of the fallback is the inner text, without tags and
    trimmed, of an anchor with an [href] that stands in the page; that text
    is on one line, and so is the headline. *)
Theorem headlines_are_anchor_texts (w : world) (st : state) :
  exists hs,
    fst (fetchNirmalbangHeadlines w st) = Ok hs
    /\ Forall (fun n =>
         exists html pre matched post m,
           net w NIRMALBANG_GENERAL = Some html
           /\ html = pre ++ matched ++ post
           /\ anchorWith matched m
           /\ Nb.headline n = trim (replaceAll tagRe [] 0 m)
           /\ Forall (fun c => isLineTerminator c = false) (Nb.headline n)) hs.
Proof.
  exists (nirmalbang w). rewrite fetchNirmalbangHeadlines_run. split; [done|].
  destruct (nirmalbang_accepted w) as [_ Hall].
  apply (Forall_impl _ _ _ Hall). intros n (_ & _ & m & Hm & Hh).
  destruct (net w NIRMALBANG_GENERAL) as [html|]; [|by apply elem_of_nil in Hm].
  apply matchAll_sound in Hm as (pre & matched & post & -> & Hmatch).
  apply anchorRe_matches in Hmatch.
  exists (pre ++ matched ++ post), pre, matched, post, m.
  split; [done|]. split; [done|]. split; [done|]. split; [done|].
  rewrite Hh. unfold fromMatch. apply trim_Forall, replaceAll_delete_Forall.
  destruct Hmatch as (? & ? & ? & ? & ? & ? & ? & ? & ? & ? & ? & Hrest).
  apply Hrest.
Qed.

End Anchors.
End PatternTheorems.

(** *** Tags *)

Module TagTheorems.
Import JS Eff App JSFacts NormalizeFacts FallbackFacts PatternTheorems.

Lemma star_finds_gt run rest :
  Forall (fun c => c <> 62%N) run ->
  matchHere [Star (notChr 62); One (chr 62)] (run ++ 62%N :: rest)
  = Some ([], S (length run)).
Proof.
  induction 1 as [|c run Hc _ IH]; rewrite matchHere_star.
  - done.
  - cbn [app]. unfold notChr at 1. apply N.eqb_neq in Hc. rewrite Hc. simpl negb.
    cbv iota. by rewrite IH.
Qed.

(** The tag pattern misses no tag. *)
Lemma tagRe_complete s : tagAt s -> matchHere tagRe s <> None.
Proof.
  intros (run & rest & -> & Hne & Hrun).
  destruct run as [|c run]; [done|].
  apply Forall_cons in Hrun as [Hc Hrun].
  unfold tagRe. cbn [matchHere app]. change (chr 60 60) with true. cbv iota.
  unfold notChr at 1. apply N.eqb_neq in Hc. rewrite Hc. simpl negb. cbv iota.
  change ((fix star (s : jsstring) : option (jsstring * nat) := _) (run ++ 62%N :: rest))
    with (matchHere [Star (notChr 62); One (chr 62)] (run ++ 62%N :: rest)).
  by rewrite star_finds_gt.
Qed.

Lemma replaceAll_gt t :
  replaceAll tagRe [] 0 (62%N :: t) = 62%N :: replaceAll tagRe [] 0 t.
Proof. reflexivity. Qed.

Lemma tagFree_nil : tagFree [].
Proof.
  intros pre suf E (run & rest & -> & _).
  by destruct pre.
Qed.

Lemma tagFree_cons c s : ~ tagAt (c :: s) -> tagFree s -> tagFree (c :: s).
Proof.
  intros Hc Hs pre suf E. destruct pre as [|c' pre].
  - simpl in E. by rewrite <- E.
  - injection E as -> E. by apply (Hs pre suf).
Qed.

Lemma tagFree_suffix pre s : tagFree (pre ++ s) -> tagFree s.
Proof.
  intros Hf p suf ->. apply (Hf (pre ++ p) suf). by rewrite <- app_assoc.
Qed.

Lemma tagFree_prefix s post : tagFree (s ++ post) -> tagFree s.
Proof.
  intros Hf p suf -> (run & rest & -> & Hne & Hrun).
  apply (Hf p ((60%N :: run ++ 62%N :: rest) ++ post)).
  - by rewrite <- app_assoc.
  - exists run, (rest ++ post). split; [|done].
    simpl. by rewrite <- app_assoc.
Qed.

Lemma trimStart_suffix s : exists pre, s = pre ++ trimStart s.
Proof.
  induction s as [|c s [pre IH]]; [by exists []|]. simpl.
  destruct (isTrimSpace c); [|by exists []].
  exists (c :: pre). simpl. by f_equal.
Qed.

Lemma trim_tagFree s : tagFree s -> tagFree (trim s).
Proof.
  intros Hf. unfold trim, trimEnd.
  destruct (trimStart_suffix s) as [pre Hs].
  destruct (trimStart_suffix (rev (trimStart s))) as [post Hr].
  rewrite Hs in Hf. apply tagFree_suffix in Hf.
  apply (tagFree_prefix _ (rev post)).
  rewrite <- rev_app_distr, <- Hr. by rewrite rev_involutive.
Qed.

(** What is left when the tags are taken out holds no tag. *)
Lemma replaceAll_tagFree k s : tagFree (replaceAll tagRe [] k s).
Proof.
  revert k. induction s as [|c s IH]; intros k; [apply tagFree_nil|].
  cbn [replaceAll]. destruct k as [|k]; [|apply IH].
  destruct (matchHere tagRe (c :: s)) as [[cap n]|] eqn:Em; [apply IH|].
  cbn [app]. apply tagFree_cons; [|apply IH].
  intros (run & rest & E & Hne & Hrun). injection E as -> E.
  assert (Hno : ~ tagAt (60%N :: s)).
  { intros Ht. by apply tagRe_complete in Ht. }
  destruct s as [|d t].
  - simpl in E. by destruct run.
  - destruct (decide (d = 62%N)) as [->|Hd].
    + rewrite replaceAll_gt in E. destruct run as [|x run]; [done|].
      injection E as <- _. by apply Forall_cons in Hrun as [? _].
    + destruct (decide (62%N ∈ d :: t)) as [Hin|Hnin].
      * apply list_elem_of_split_l in Hin as (l1 & l2 & E' & Hl1).
        apply Hno. exists l1, l2. split; [by rewrite E'|]. split.
        { intros ->. simpl in E'. by injection E' as ->. }
        apply Forall_forall. by intros x Hx ->.
      * assert (Hout : Forall (fun x => x <> 62%N)
                         (replaceAll tagRe [] 0 (d :: t))).
        { apply replaceAll_delete_Forall. apply Forall_forall.
          by intros x Hx ->. }
        rewrite E in Hout. apply Forall_app in Hout as [_ Hout].
        by apply Forall_cons in Hout as [? _].
Qed.

Section Tags.
Context `{Host}.

(** X17. No headline of the fallback holds a tag: nowhere in it does a [<] come
    before a [>] with units between them. *)
Theorem headlines_are_tag_free (w : world) (st : state) :
  exists hs,
    fst (fetchNirmalbangHeadlines w st) = Ok hs
    /\ Forall (fun n => tagFree (Nb.headline n)) hs.
Proof.
  exists (nirmalbang w). rewrite fetchNirmalbangHeadlines_run. split; [done|].
  destruct (nirmalbang_accepted w) as [_ Hall].
  apply (Forall_impl _ _ _ Hall). intros n (_ & _ & m & _ & ->).
  unfold fromMatch. apply trim_tagFree, replaceAll_tagFree.
Qed.

End Tags.
End TagTheorems.

(** *** Alias priority *)

Module AliasTheorems.
Import JS Eff App JSFacts NormalizeFacts.

Section Aliases.
Context `{Host}.

Lemma orM_truthy_left v b : truthy v = true -> orM (Ok v) b = Ok v.
Proof. intros Hv. unfold orM. simpl. by rewrite Hv. Qed.

(** X18. The first truthy headline field wins, whatever it trims to: a record
    whose [Title] is a non-empty string gets that title, trimmed, as its
    headline; so when the title is white space only the record is left out,
    even if another headline field holds text. *)
Theorem first_truthy_headline_wins (item : value) (r : Raw.t) (s : jsstring) :
  normalizeItem item = Ok r ->
  get item (u "Title") = Ok (VString s) ->
  s <> [] ->
  Raw.headline r = trim s
  /\ (trim s = [] ->
      forall obj out, parseAcesphereList obj = Ok out -> r ∉ out).
Proof.
  intros Hn Ht Hs.
  assert (Hh : Raw.headline r = trim s).
  { apply normalizeItem_inv in Hn as (hv & s' & Hhv & Hs' & Hh & _).
    unfold extractHeadline in Hhv. rewrite Ht in Hhv.
    rewrite !orM_truthy_left in Hhv by (by apply truthy_string).
    injection Hhv as <-. simpl in Hs'. injection Hs' as <-. done. }
  split; [done|]. intros He obj out Hp Hin.
  apply parseAcesphereList_records in Hp. rewrite Forall_forall in Hp.
  destruct (Hp r Hin) as [Hne _]. by rewrite Hh, He in Hne.
Qed.

End Aliases.

(** A record with a blank [Title] and a [Headline]. *)
Lemma first_truthy_headline_wins_witness :
  Raw.headline {| Raw.headline := []; Raw.dateRaw := VNull; Raw.date := [] |}
  = trim (u "  ")
  /\ (trim (u "  ") = [] ->
      forall obj out,
        @parseAcesphereList Examples.utc obj = Ok out ->
        {| Raw.headline := []; Raw.dateRaw := VNull; Raw.date := [] |} ∉ out).
Proof.
  apply (@first_truthy_headline_wins Examples.utc
           (VObject [(u "Title", VString (u "  "));
                     (u "Headline", VString (u "Sensex gains"))])).
  - reflexivity.
  - reflexivity.
  - discriminate.
Defined.

End AliasTheorems.
